(** * Contact book (Home_task_8.py): a shallow embedding and its properties

    The program keeps an [AddressBook] (a dict from a name to a [Record]),
    validates phones and birthdays when the field objects are constructed,
    answers a handful of commands and stores the book with [pickle].

    Conventions of the embedding:
    - a Python [str] is the list of its code points ([N]); [len] is the
      length of that list, so that a non-ASCII digit counts as one character;
    - an exception is a value of [exn]; a call that may raise returns a
      [result]; a command handler returns its outcome together with the
      book as it is when the handler returns or raises (Python does not roll
      anything back);
    - a dict is an association list in insertion order with unique keys;
    - the clock ([datetime.today()]) and the file system are explicit
      arguments. *)

From Stdlib Require Import List NArith ZArith String Ascii Bool Lia.
From Stdlib Require Import DecimalString.
Import ListNotations.

Set Implicit Arguments.

(** ** Python strings *)

Definition str := list N.

(** An ASCII literal of the source as a [str]. *)
Definition txt (lit : string) : str :=
  List.map N_of_ascii (list_ascii_of_string lit).

Fixpoint str_eqb (a b : str) : bool :=
  match a, b with
  | [], [] => true
  | x :: a', y :: b' => (x =? y)%N && str_eqb a' b'
  | _, _ => false
  end.

Definition len (a : str) : Z := Z.of_nat (List.length a).

(** [str(n)] for an integer, in decimal. *)
Definition str_of_int (n : Z) : str := txt (NilZero.string_of_int (Z.to_int n)).

(** A code point lies in one of the inclusive ranges of a table. *)
Definition in_ranges (table : list (N * N)) (c : N) : bool :=
  existsb (fun r => (fst r <=? c)%N && (c <=? snd r)%N) table.

(** The characters of general category Nd (Unicode 14.0): every range is a
    run of the ten digits 0..9 (the mathematical digits are five such runs
    in a row).  [str.isdecimal], the [\d] of [re] on [str] patterns and
    [int] use this table. *)
Definition decimal_ranges : list (N * N) :=
  [ (0x30, 0x39); (0x660, 0x669); (0x6F0, 0x6F9); (0x7C0, 0x7C9);
    (0x966, 0x96F); (0x9E6, 0x9EF); (0xA66, 0xA6F); (0xAE6, 0xAEF);
    (0xB66, 0xB6F); (0xBE6, 0xBEF); (0xC66, 0xC6F); (0xCE6, 0xCEF);
    (0xD66, 0xD6F); (0xDE6, 0xDEF); (0xE50, 0xE59); (0xED0, 0xED9);
    (0xF20, 0xF29); (0x1040, 0x1049); (0x1090, 0x1099); (0x17E0, 0x17E9);
    (0x1810, 0x1819); (0x1946, 0x194F); (0x19D0, 0x19D9); (0x1A80, 0x1A89);
    (0x1A90, 0x1A99); (0x1B50, 0x1B59); (0x1BB0, 0x1BB9); (0x1C40, 0x1C49);
    (0x1C50, 0x1C59); (0xA620, 0xA629); (0xA8D0, 0xA8D9); (0xA900, 0xA909);
    (0xA9D0, 0xA9D9); (0xA9F0, 0xA9F9); (0xAA50, 0xAA59); (0xABF0, 0xABF9);
    (0xFF10, 0xFF19); (0x104A0, 0x104A9); (0x10D30, 0x10D39);
    (0x11066, 0x1106F); (0x110F0, 0x110F9); (0x11136, 0x1113F);
    (0x111D0, 0x111D9); (0x112F0, 0x112F9); (0x11450, 0x11459);
    (0x114D0, 0x114D9); (0x11650, 0x11659); (0x116C0, 0x116C9);
    (0x11730, 0x11739); (0x118E0, 0x118E9); (0x11950, 0x11959);
    (0x11C50, 0x11C59); (0x11D50, 0x11D59); (0x11DA0, 0x11DA9);
    (0x16A60, 0x16A69); (0x16AC0, 0x16AC9); (0x16B50, 0x16B59);
    (0x1D7CE, 0x1D7FF); (0x1E140, 0x1E149); (0x1E2F0, 0x1E2F9);
    (0x1E950, 0x1E959); (0x1FBF0, 0x1FBF9) ]%N.

(** The characters with Numeric_Type=Digit that are not decimal
    (superscripts, subscripts, circled digits, ...): [str.isdigit] accepts
    them, [int] does not. *)
Definition other_digit_ranges : list (N * N) :=
  [ (0xB2, 0xB3); (0xB9, 0xB9); (0x1369, 0x1371); (0x19DA, 0x19DA);
    (0x2070, 0x2070); (0x2074, 0x2079); (0x2080, 0x2089); (0x2460, 0x2468);
    (0x2474, 0x247C); (0x2488, 0x2490); (0x24EA, 0x24EA); (0x24F5, 0x24FD);
    (0x24FF, 0x24FF); (0x2776, 0x277E); (0x2780, 0x2788); (0x278A, 0x2792);
    (0x10A40, 0x10A43); (0x10E60, 0x10E68); (0x11052, 0x1105A);
    (0x1F100, 0x1F10A) ]%N.

(** The characters [str.isspace] accepts; [int] strips them. *)
Definition space_ranges : list (N * N) :=
  [ (0x9, 0xD); (0x1C, 0x20); (0x85, 0x85); (0xA0, 0xA0); (0x1680, 0x1680);
    (0x2000, 0x200A); (0x2028, 0x2029); (0x202F, 0x202F); (0x205F, 0x205F);
    (0x3000, 0x3000) ]%N.

(** No range of the first table meets a range of the second. *)
Definition ranges_disjoint (t1 t2 : list (N * N)) : bool :=
  forallb (fun r1 =>
    forallb (fun r2 => (snd r1 <? fst r2)%N || (snd r2 <? fst r1)%N) t2) t1.

Definition is_decimal_char (c : N) : bool := in_ranges decimal_ranges c.

Definition is_digit_char (c : N) : bool :=
  is_decimal_char c || in_ranges other_digit_ranges c.

Definition is_space_char (c : N) : bool := in_ranges space_ranges c.

(** The ASCII digits [0-9]. *)
Definition is_ascii_digit (c : N) : bool := (0x30 <=? c)%N && (c <=? 0x39)%N.

(** [str.isdigit]: at least one character, and all of them digits. *)
Definition isdigit (a : str) : bool :=
  negb (Nat.eqb (List.length a) 0) && forallb is_digit_char a.

(** The value of a decimal character: its offset in its run of ten. *)
Definition decimal_value (c : N) : Z :=
  match find (fun r => (fst r <=? c)%N && (c <=? snd r)%N) decimal_ranges with
  | Some r => Z.of_N ((c - fst r) mod 10)
  | None => 0
  end.

Fixpoint lstrip (a : str) : str :=
  match a with
  | c :: rest => if is_space_char c then lstrip rest else a
  | [] => []
  end.

Definition strip (a : str) : str := rev (lstrip (rev (lstrip a))).

(** [int(text)] on the texts the date fields can hold: surrounding white
    space is stripped, what is left must be a non-empty run of decimal
    characters, read in base ten.  (Signs and underscores, which [int] also
    understands, cannot occur in a matched field.) *)
Definition int (a : str) : option Z :=
  let body := strip a in
  if negb (Nat.eqb (List.length body) 0) && forallb is_decimal_char body
  then Some (fold_left (fun acc c => 10 * acc + decimal_value c) body 0)%Z
  else None.

(** ** Exceptions *)

Inductive exn : Type :=
| ValueError (msg : str)
| OverflowError (msg : str)
| FileNotFoundError
| UnpicklingError.

(** [str(e)] *)
Definition exn_str (e : exn) : str :=
  match e with
  | ValueError msg => msg
  | OverflowError msg => msg
  | FileNotFoundError => txt "[Errno 2] No such file or directory"
  | UnpicklingError => txt "invalid load key"
  end.

Inductive result (A : Type) : Type :=
| Ok (a : A)
| Raise (e : exn).

Arguments Ok {A} a.
Arguments Raise {A} e.

Definition is_ok {A} (r : result A) : bool :=
  match r with Ok _ => true | Raise _ => false end.

(** ** Fields *)

Record Field : Type := mkField { value : str }.

(** class Phone(Field) *)
Module Phone.

Definition __init__ (v : str) : result Field :=
  if negb (isdigit v) || negb (len v =? 10)%Z
  then Raise (ValueError (txt "Phone number must be 10 digits."))
  else Ok (mkField v).

End Phone.

(** ** Dates ([datetime]) *)

Record datetime : Type := mkDatetime {
  year : Z; month : Z; day : Z;
  hour : Z; minute : Z; second : Z; microsecond : Z }.

Record timedelta : Type := mkTimedelta {
  days : Z; seconds : Z; microseconds : Z }.

Definition MINYEAR : Z := 1.
Definition MAXYEAR : Z := 9999.
Definition _MAXORDINAL : Z := 3652059.

Definition _DAYS_IN_MONTH : list Z :=
  [-1; 31; 28; 31; 30; 31; 30; 31; 31; 30; 31; 30; 31]%Z.

Definition _DAYS_BEFORE_MONTH : list Z :=
  [-1; 0; 31; 59; 90; 120; 151; 181; 212; 243; 273; 304; 334]%Z.

Definition table_get (table : list Z) (i : Z) : Z :=
  nth (Z.to_nat i) table (-1)%Z.

Definition _is_leap (y : Z) : bool :=
  ((y mod 4 =? 0) && (negb (y mod 100 =? 0) || (y mod 400 =? 0)))%Z.

Definition _days_before_year (y : Z) : Z :=
  let y := (y - 1)%Z in (y * 365 + y / 4 - y / 100 + y / 400)%Z.

Definition _days_in_month (y m : Z) : Z :=
  if (m =? 2)%Z && _is_leap y then 29%Z else table_get _DAYS_IN_MONTH m.

Definition _days_before_month (y m : Z) : Z :=
  (table_get _DAYS_BEFORE_MONTH m
   + (if (2 <? m) && _is_leap y then 1 else 0))%Z.

Definition _ymd2ord (y m d : Z) : Z :=
  (_days_before_year y + _days_before_month y m + d)%Z.

Definition _DI400Y : Z := _days_before_year 401.
Definition _DI100Y : Z := _days_before_year 101.
Definition _DI4Y : Z := _days_before_year 5.

Definition _ord2ymd (n : Z) : Z * Z * Z :=
  let n := (n - 1)%Z in
  let n400 := (n / _DI400Y)%Z in
  let n := (n mod _DI400Y)%Z in
  let y := (n400 * 400 + 1)%Z in
  let n100 := (n / _DI100Y)%Z in
  let n := (n mod _DI100Y)%Z in
  let n4 := (n / _DI4Y)%Z in
  let n := (n mod _DI4Y)%Z in
  let n1 := (n / 365)%Z in
  let n := (n mod 365)%Z in
  let y := (y + (n100 * 100 + n4 * 4 + n1))%Z in
  if (n1 =? 4)%Z || (n100 =? 4)%Z then ((y - 1)%Z, 12%Z, 31%Z)
  else
    let leapyear := (n1 =? 3)%Z && (negb (n4 =? 24)%Z || (n100 =? 3)%Z) in
    let m := Z.shiftr (n + 50) 5 in
    let preceding :=
      (table_get _DAYS_BEFORE_MONTH m
       + (if (2 <? m)%Z && leapyear then 1 else 0))%Z in
    if (n <? preceding)%Z then
      let m := (m - 1)%Z in
      let preceding :=
        (preceding - (table_get _DAYS_IN_MONTH m
                      + (if (m =? 2)%Z && leapyear then 1 else 0)))%Z in
      (y, m, (n - preceding + 1)%Z)
    else (y, m, (n - preceding + 1)%Z).

(** [_check_date_fields]: which of the three checks fails decides the
    message. *)
Definition _check_date_fields (y m d : Z) : result (Z * Z * Z) :=
  if negb ((MINYEAR <=? y) && (y <=? MAXYEAR))%Z
  then Raise (ValueError (txt "year " ++ str_of_int y ++ txt " is out of range"))
  else if negb ((1 <=? m) && (m <=? 12))%Z
  then Raise (ValueError (txt "month must be in 1..12"))
  else if negb ((1 <=? d) && (d <=? _days_in_month y m))%Z
  then Raise (ValueError (txt "day is out of range for month"))
  else Ok (y, m, d).

Definition toordinal (t : datetime) : Z := _ymd2ord (year t) (month t) (day t).

(** The tuple two naive datetimes are compared by. *)
Definition _cmp_fields (t : datetime) : list Z :=
  [year t; month t; day t; hour t; minute t; second t; microsecond t].

Fixpoint _cmp (a b : list Z) : comparison :=
  match a, b with
  | x :: a', y :: b' =>
      match (x ?= y)%Z with Eq => _cmp a' b' | c => c end
  | [], [] => Eq
  | [], _ :: _ => Lt
  | _ :: _, [] => Gt
  end.

(** [a <= b] on datetimes *)
Definition datetime_le (a b : datetime) : bool :=
  match _cmp (_cmp_fields a) (_cmp_fields b) with Gt => false | _ => true end.

(** [self + other] for a datetime and a timedelta *)
Definition datetime_add (self : datetime) (other : timedelta) : result datetime :=
  let us := (microsecond self + microseconds other)%Z in
  let secs := (hour self * 3600 + minute self * 60 + second self
               + seconds other + us / 1000000)%Z in
  let d := (toordinal self + days other + secs / 86400)%Z in
  let us := (us mod 1000000)%Z in
  let secs := (secs mod 86400)%Z in
  if (0 <? d)%Z && (d <=? _MAXORDINAL)%Z then
    let '(y, m, dd) := _ord2ymd d in
    Ok (mkDatetime y m dd (secs / 3600) ((secs mod 3600) / 60) (secs mod 60) us)
  else Raise (OverflowError (txt "date value out of range")).

(** ** [datetime.strptime(value, '%d.%m.%Y')]

    [_strptime] turns the format into the regular expression
    [(?P<d>3[0-1]|[1-2]\d|0[1-9]|[1-9]| [1-9])\.(?P<m>1[0-2]|0[1-9]|[1-9])\.(?P<Y>\d\d\d\d)],
    matches it at the start of the text, refuses text left over after the
    match, converts the three groups with [int] and builds the date.  The
    matcher below is the backtracking one of [re]: the alternatives of a
    group are tried from left to right and the first one that lets the rest
    of the pattern match wins.  (The pattern is compiled with IGNORECASE,
    which changes nothing for digits, dots and spaces.) *)

Inductive cclass : Type :=
| CRange (lo hi : N)    (* [lo-hi] *)
| CDigit                (* \d *)
| CChar (c : N).        (* one literal character *)

Definition cclass_match (k : cclass) (c : N) : bool :=
  match k with
  | CRange lo hi => (lo <=? c)%N && (c <=? hi)%N
  | CDigit => is_decimal_char c
  | CChar c' => (c =? c')%N
  end.

(** One alternative: a fixed sequence of one-character classes.  Returns the
    text it consumed and the text after it. *)
Fixpoint match_alt (alt : list cclass) (a : str) : option (str * str) :=
  match alt, a with
  | [], _ => Some ([], a)
  | k :: alt', c :: a' =>
      if cclass_match k c then
        match match_alt alt' a' with
        | Some (got, rest) => Some (c :: got, rest)
        | None => None
        end
      else None
  | _ :: _, [] => None
  end.

(** A pattern: a sequence of groups, each a named or unnamed alternation. *)
Definition group : Type := option ascii * list (list cclass).

Definition bind_group (name : option ascii) (got : str)
    (groups : list (ascii * str)) : list (ascii * str) :=
  match name with
  | Some n => (n, got) :: groups
  | None => groups
  end.

(** The alternatives of one group, tried in order; [rest_of_pattern] matches
    what follows the group.  An alternative that matches is given up again
    when what follows does not match after it. *)
Fixpoint try_alts (rest_of_pattern : str -> option (list (ascii * str) * str))
    (name : option ascii) (alts : list (list cclass)) (a : str)
    : option (list (ascii * str) * str) :=
  match alts with
  | [] => None
  | alt :: more =>
      match match_alt alt a with
      | Some (got, rest) =>
          match rest_of_pattern rest with
          | Some (groups, final) => Some (bind_group name got groups, final)
          | None => try_alts rest_of_pattern name more a
          end
      | None => try_alts rest_of_pattern name more a
      end
  end.

(** [re.match]: the groups of the first match found at the start of the
    text, and the text after the match. *)
Fixpoint match_here (p : list group) (a : str) {struct p}
    : option (list (ascii * str) * str) :=
  match p with
  | [] => Some ([], a)
  | (name, alts) :: p' => try_alts (match_here p') name alts a
  end.

Definition c0 : N := 0x30.
Definition c1 : N := 0x31.
Definition c2 : N := 0x32.
Definition c3 : N := 0x33.
Definition c9 : N := 0x39.
Definition cdot : N := 0x2E.
Definition cspace : N := 0x20.

Definition format_regex : list group :=
  [ (Some "d"%char,
     [ [CChar c3; CRange c0 c1]; [CRange c1 c2; CDigit];
       [CChar c0; CRange c1 c9]; [CRange c1 c9]; [CChar cspace; CRange c1 c9] ]);
    (None, [ [CChar cdot] ]);
    (Some "m"%char,
     [ [CChar c1; CRange c0 c2]; [CChar c0; CRange c1 c9]; [CRange c1 c9] ]);
    (None, [ [CChar cdot] ]);
    (Some "Y"%char, [ [CDigit; CDigit; CDigit; CDigit] ]) ].

Fixpoint group_get (name : ascii) (groups : list (ascii * str)) : str :=
  match groups with
  | (n, got) :: more => if Ascii.eqb n name then got else group_get name more
  | [] => []
  end.

(** Why [_strptime] raised its [ValueError]. *)
Inductive strptime_failure : Type :=
| NoMatch (data : str)             (* time data ... does not match format ... *)
| Unconverted (rest : str)         (* unconverted data remains: ... *)
| BadLiteral (field : str)         (* raised by int *)
| BadDate (e : exn).               (* raised by the date constructor *)

Definition _strptime (data_string : str) : strptime_failure + datetime :=
  match match_here format_regex data_string with
  | None => inl (NoMatch data_string)
  | Some (found_dict, rest) =>
      if negb (Nat.eqb (List.length rest) 0) then inl (Unconverted rest)
      else
        match int (group_get "Y" found_dict),
              int (group_get "m" found_dict),
              int (group_get "d" found_dict) with
        | Some y, Some m, Some d =>
            match _check_date_fields y m d with
            | Ok _ => inr (mkDatetime y m d 0 0 0 0)
            | Raise e => inl (BadDate e)
            end
        | None, _, _ => inl (BadLiteral (group_get "Y" found_dict))
        | _, None, _ => inl (BadLiteral (group_get "m" found_dict))
        | _, _, None => inl (BadLiteral (group_get "d" found_dict))
        end
  end.

Section Strptime.

(** [repr] of a [str], used by one message only; it is taken as given. *)
Variable repr : str -> str.

Definition strptime_message (f : strptime_failure) : str :=
  match f with
  | NoMatch data =>
      txt "time data " ++ repr data ++ txt " does not match format "
      ++ repr (txt "%d.%m.%Y")
  | Unconverted rest => txt "unconverted data remains: " ++ rest
  | BadLiteral field =>
      txt "invalid literal for int() with base 10: " ++ repr field
  | BadDate e => exn_str e
  end.

Definition strptime (data_string : str) : result datetime :=
  match _strptime data_string with
  | inr t => Ok t
  | inl f => Raise (ValueError (strptime_message f))
  end.

End Strptime.

(** class Birthday(Field): any [ValueError] of [strptime] is replaced by the
    one of the constructor, so the library's message plays no role here. *)
Module Birthday.

Definition __init__ (v : str) : result Field :=
  match _strptime v with
  | inl _ => Raise (ValueError (txt "Invalid date format. Use DD.MM.YYYY"))
  | inr _ => Ok (mkField v)
  end.

End Birthday.

(** ** Dicts in insertion order *)

Section Dict.

Variable V : Type.

Definition dict : Type := list (str * V).

(** [d.get(k)] *)
Fixpoint dict_get (k : str) (d : dict) : option V :=
  match d with
  | [] => None
  | (k', v) :: d' => if str_eqb k' k then Some v else dict_get k d'
  end.

(** [d[k] = v]: an existing key keeps its place, a new one goes last. *)
Fixpoint dict_set (k : str) (v : V) (d : dict) : dict :=
  match d with
  | [] => [(k, v)]
  | (k', v') :: d' =>
      if str_eqb k' k then (k', v) :: d' else (k', v') :: dict_set k v d'
  end.

Definition dict_keys (d : dict) : list str := List.map fst d.

(** [d.values()] *)
Definition dict_values (d : dict) : list V := List.map snd d.

End Dict.

(** ** Objects and [pickle]

    [pickle.dump] writes a program for the unpickling machine and
    [pickle.load] runs it.  The objects of this program are strings, [None],
    lists, dicts keyed by strings and instances of the module's classes; an
    instance is pickled as its class and its [__dict__]
    ([object.__reduce_ex__]: [copyreg.__newobj__], the class, the state).

    The stream is that of protocol 4, as the pickler of CPython 3.11 writes
    it, without what carries no data of the object: the PROTO and FRAME headers, and the memo (MEMOIZE, BINGET),
    which only lets an object that occurs twice be written once; here every
    object is written in full where it occurs.  The three string opcodes,
    which differ in the width of the length field, are one. *)

#[local] Set Warnings "-register-all".

Inductive pyobj : Type :=
| PNone
| PStr (text : str)
| PList (items : list pyobj)
| PDict (items : list (str * pyobj))
| PInst (module_name class_name : str) (state : list (str * pyobj)).

Inductive opcode : Type :=
| NONE
| BINUNICODE (text : str)
| EMPTY_LIST
| APPEND
| APPENDS
| EMPTY_DICT
| SETITEM
| SETITEMS
| MARK
| EMPTY_TUPLE
| STACK_GLOBAL
| NEWOBJ
| BUILD
| STOP.

Definition _BATCHSIZE : nat := 1000.

(** The batches of [batch_list_exact], for a list of two items or more:
    [do { up to _BATCHSIZE items } while (total < size)]. *)
Fixpoint list_batches (A : Type) (fuel : nat) (items : list A)
    : list (list A) :=
  match fuel with
  | O => []
  | S fuel' =>
      firstn _BATCHSIZE items ::
      match skipn _BATCHSIZE items with
      | [] => []
      | rest => list_batches fuel' rest
      end
  end.

(** The batches of [batch_dict_exact], for a dict of two items or more:
    [do { up to _BATCHSIZE items } while (i == _BATCHSIZE)]; after a full
    batch the loop runs once more, be it on nothing. *)
Fixpoint dict_batches (A : Type) (fuel : nat) (items : list A)
    : list (list A) :=
  match fuel with
  | O => []
  | S fuel' =>
      firstn _BATCHSIZE items ::
      if Nat.eqb (List.length (firstn _BATCHSIZE items)) _BATCHSIZE
      then dict_batches fuel' (skipn _BATCHSIZE items)
      else []
  end.

(** One batch between MARK and the opcode that consumes it. *)
Definition marked (many : opcode) (tmp : list (list opcode)) : list opcode :=
  MARK :: List.concat tmp ++ [many].

(** [batch_list_exact]; [saved] holds, for each item, the opcodes that push
    it. *)
Definition batch_list_exact (saved : list (list opcode)) : list opcode :=
  match saved with
  | [] => []
  | [x] => x ++ [APPEND]
  | _ =>
      List.concat
        (List.map (marked APPENDS) (list_batches (List.length saved) saved))
  end.

(** [batch_dict_exact]; [saved] holds, for each item, the opcodes that push
    its key and then its value. *)
Definition batch_dict_exact (saved : list (list opcode)) : list opcode :=
  match saved with
  | [] => []
  | [x] => x ++ [SETITEM]
  | _ =>
      List.concat
        (List.map (marked SETITEMS) (dict_batches (S (List.length saved)) saved))
  end.

(** [Pickler.save] *)
Fixpoint save (o : pyobj) : list opcode :=
  let save_items (items : list (str * pyobj)) :=
    EMPTY_DICT ::
    batch_dict_exact
      (List.map (fun kv => let '(k, v) := kv in BINUNICODE k :: save v) items) in
  match o with
  | PNone => [NONE]
  | PStr text => [BINUNICODE text]
  | PList items => EMPTY_LIST :: batch_list_exact (List.map save items)
  | PDict items => save_items items
  | PInst module_name class_name state =>
      [BINUNICODE module_name; BINUNICODE class_name; STACK_GLOBAL;
       EMPTY_TUPLE; NEWOBJ]
      ++ match state with
         | [] => []
         | _ => save_items state ++ [BUILD]
         end
  end.

(** [pickle.dump(obj, f)]: what is written to the file. *)
Definition dump (o : pyobj) : list opcode := save o ++ [STOP].

(** What the stack of the unpickler holds. *)
Inductive item : Type :=
| IObj (o : pyobj)
| IMark
| IGlobal (module_name class_name : str)
| ITuple.

(** [pop_mark]: the objects above the topmost mark, oldest first, and the
    stack below the mark. *)
Fixpoint pop_mark (stack : list item) (above : list pyobj)
    : option (list pyobj * list item) :=
  match stack with
  | IMark :: below => Some (above, below)
  | IObj o :: stack' => pop_mark stack' (o :: above)
  | _ => None
  end.

(** [d[k] = v] for the alternating keys and values of SETITEMS. *)
Fixpoint set_items (d : list (str * pyobj)) (kvs : list pyobj)
    : option (list (str * pyobj)) :=
  match kvs with
  | [] => Some d
  | PStr k :: v :: more => set_items (dict_set k v d) more
  | _ => None
  end.

(** [inst.__dict__.update(state)] *)
Definition dict_update (d state : list (str * pyobj)) : list (str * pyobj) :=
  fold_left (fun d kv => dict_set (fst kv) (snd kv) d) state d.

(** One opcode of [Unpickler.load]; [None] stands for the exception the
    unpickler raises on a stream it cannot run. *)
Definition step (op : opcode) (stack : list item) : option (list item) :=
  match op, stack with
  | NONE, _ => Some (IObj PNone :: stack)
  | BINUNICODE text, _ => Some (IObj (PStr text) :: stack)
  | EMPTY_LIST, _ => Some (IObj (PList []) :: stack)
  | EMPTY_DICT, _ => Some (IObj (PDict []) :: stack)
  | EMPTY_TUPLE, _ => Some (ITuple :: stack)
  | MARK, _ => Some (IMark :: stack)
  | APPEND, IObj v :: IObj (PList l) :: below =>
      Some (IObj (PList (l ++ [v])) :: below)
  | APPENDS, _ =>
      match pop_mark stack [] with
      | Some (vs, IObj (PList l) :: below) => Some (IObj (PList (l ++ vs)) :: below)
      | _ => None
      end
  | SETITEM, IObj v :: IObj (PStr k) :: IObj (PDict d) :: below =>
      Some (IObj (PDict (dict_set k v d)) :: below)
  | SETITEMS, _ =>
      match pop_mark stack [] with
      | Some (kvs, IObj (PDict d) :: below) =>
          match set_items d kvs with
          | Some d' => Some (IObj (PDict d') :: below)
          | None => None
          end
      | _ => None
      end
  | STACK_GLOBAL, IObj (PStr class_name) :: IObj (PStr module_name) :: below =>
      Some (IGlobal module_name class_name :: below)
  | NEWOBJ, ITuple :: IGlobal module_name class_name :: below =>
      Some (IObj (PInst module_name class_name []) :: below)
  | BUILD, IObj (PDict state) :: IObj (PInst module_name class_name d) :: below =>
      Some (IObj (PInst module_name class_name (dict_update d state)) :: below)
  | _, _ => None
  end.

(** [Unpickler.load]: opcodes are run until STOP, which returns the top of
    the stack. *)
Fixpoint run (ops : list opcode) (stack : list item) : result pyobj :=
  match ops with
  | [] => Raise UnpicklingError
  | STOP :: _ =>
      match stack with
      | IObj o :: _ => Ok o
      | _ => Raise UnpicklingError
      end
  | op :: ops' =>
      match step op stack with
      | Some stack' => run ops' stack'
      | None => Raise UnpicklingError
      end
  end.

(** [pickle.load(f)] *)
Definition load (content : list opcode) : result pyobj := run content [].

(** Induction on objects, through the lists they hold. *)
Section pyobj_induction.

Variable P : pyobj -> Prop.
Hypothesis HNone : P PNone.
Hypothesis HStr : forall text, P (PStr text).
Hypothesis HList : forall items, Forall P items -> P (PList items).
Hypothesis HDict :
  forall items, Forall (fun kv => P (snd kv)) items -> P (PDict items).
Hypothesis HInst :
  forall m c state,
    Forall (fun kv => P (snd kv)) state -> P (PInst m c state).

Fixpoint pyobj_induction (o : pyobj) : P o :=
  let all_items :=
    fix go (items : list (str * pyobj))
      : Forall (fun kv => P (snd kv)) items :=
      match items with
      | [] => Forall_nil _
      | (k, v) :: more =>
          @Forall_cons _ (fun kv => P (snd kv)) (k, v) more
            (pyobj_induction v) (go more)
      end in
  match o with
  | PNone => HNone
  | PStr text => HStr text
  | PList items =>
      HList
        ((fix go (items : list pyobj) : Forall P items :=
            match items with
            | [] => Forall_nil _
            | x :: more => Forall_cons x (pyobj_induction x) (go more)
            end) items)
  | PDict items => HDict (all_items items)
  | PInst m c state => HInst m c (all_items state)
  end.

End pyobj_induction.

(** An object whose dicts and instance states have no key twice: the
    objects that exist. *)
Inductive wf : pyobj -> Prop :=
| wf_none : wf PNone
| wf_str text : wf (PStr text)
| wf_list items : Forall wf items -> wf (PList items)
| wf_dict items :
    NoDup (List.map fst items) -> Forall (fun kv => wf (snd kv)) items ->
    wf (PDict items)
| wf_inst m c state :
    NoDup (List.map fst state) -> Forall (fun kv => wf (snd kv)) state ->
    wf (PInst m c state).

(** [pushes ops objs]: running [ops] pushes the objects [objs], the first
    one first, and then goes on with what follows. *)
Definition pushes (ops : list opcode) (objs : list pyobj) : Prop :=
  forall more stack,
    run (ops ++ more) stack = run more (rev (List.map IObj objs) ++ stack).

(** Key and value of a dict item, as SETITEMS finds them on the stack. *)
Definition key_value (kv : str * pyobj) : list pyobj := [PStr (fst kv); snd kv].

(** The file system: the regular files, by path, with what [pickle] wrote
    to them. *)
Definition filesystem : Type := dict (list opcode).

(** [open(filename, 'rb')] *)
Definition open_rb (filename : str) (fs : filesystem) : result (list opcode) :=
  match dict_get filename fs with
  | Some content => Ok content
  | None => Raise FileNotFoundError
  end.

(** [open(filename, 'wb')], a write and the close: the file is created or
    replaced. *)
Definition write_wb (filename : str) (content : list opcode) (fs : filesystem)
    : filesystem :=
  dict_set filename content fs.

Definition __main__ : str := txt "__main__".

(** An instance of a [Field] class. *)
Definition field_obj (class_name : str) (f : Field) : pyobj :=
  PInst __main__ class_name [(txt "value", PStr (value f))].

Definition field_of_obj (class_name : str) (o : pyobj) : option Field :=
  match o with
  | PInst m c state =>
      if str_eqb m __main__ && str_eqb c class_name then
        match dict_get (txt "value") state with
        | Some (PStr v) => Some (mkField v)
        | _ => None
        end
      else None
  | _ => None
  end.

(** [[f(x) for x in xs]] when [f] may fail. *)
Fixpoint map_option (A B : Type) (f : A -> option B) (xs : list A)
    : option (list B) :=
  match xs with
  | [] => Some []
  | x :: xs' =>
      match f x, map_option f xs' with
      | Some y, Some ys => Some (y :: ys)
      | _, _ => None
      end
  end.

(** ** Records *)

Module Record.

Record t : Type := mk {
  name : Field;
  phones : list Field;
  birthday : option Field }.

Definition __init__ (n : str) : result t :=
  Ok (mk (mkField n) [] None).

(** [self.phones.append(Phone(phone))]: the record after the call. *)
Definition add_phone (self : t) (phone : str) : result t :=
  match Phone.__init__ phone with
  | Ok p => Ok (mk (name self) (phones self ++ [p]) (birthday self))
  | Raise e => Raise e
  end.

(** [self.birthday = Birthday(birthday)] *)
Definition add_birthday (self : t) (b : str) : result t :=
  match Birthday.__init__ b with
  | Ok f => Ok (mk (name self) (phones self) (Some f))
  | Raise e => Raise e
  end.

(** The instance as [pickle] walks it: the attributes in the order
    [__init__] created them. *)
Definition to_obj (self : t) : pyobj :=
  PInst __main__ (txt "Record")
    [ (txt "name", field_obj (txt "Name") (name self));
      (txt "phones", PList (List.map (field_obj (txt "Phone")) (phones self)));
      (txt "birthday",
       match birthday self with
       | Some b => field_obj (txt "Birthday") b
       | None => PNone
       end) ].

(** The record an unpickled object is, when it is one. *)
Definition of_obj (o : pyobj) : option t :=
  match o with
  | PInst m c state =>
      if str_eqb m __main__ && str_eqb c (txt "Record") then
        match dict_get (txt "name") state,
              dict_get (txt "phones") state,
              dict_get (txt "birthday") state with
        | Some n, Some (PList ps), Some b =>
            match field_of_obj (txt "Name") n,
                  map_option (field_of_obj (txt "Phone")) ps,
                  match b with
                  | PNone => Some None
                  | _ => option_map Some (field_of_obj (txt "Birthday") b)
                  end with
            | Some n', Some ps', Some b' => Some (mk n' ps' b')
            | _, _, _ => None
            end
        | _, _, _ => None
        end
      else None
  | _ => None
  end.

(** The dict of [to_dict]: its three keys are fixed, so it is a record;
    [None] for the birthday is the Python [None]. *)
Record data : Type := mkData {
  data_name : str;
  data_phones : list str;
  data_birthday : option str }.

Definition to_dict (self : t) : data :=
  mkData (value (name self)) (List.map value (phones self))
    (match birthday self with
     | Some b => Some (value b)
     | None => None
     end).

(** [for phone in data['phones']: record.add_phone(phone)] *)
Fixpoint add_phones (record : t) (ps : list str) : result t :=
  match ps with
  | [] => Ok record
  | phone :: more =>
      match add_phone record phone with
      | Ok record' => add_phones record' more
      | Raise e => Raise e
      end
  end.

(** [if data['birthday']] skips [None] and the empty text. *)
Definition from_dict (d : data) : result t :=
  match __init__ (data_name d) with
  | Ok record =>
      match add_phones record (data_phones d) with
      | Ok record' =>
          match data_birthday d with
          | Some (c :: b) => add_birthday record' (c :: b)
          | Some [] => Ok record'
          | None => Ok record'
          end
      | Raise e => Raise e
      end
  | Raise e => Raise e
  end.

End Record.

(** ** The address book

    A record object is held by the book under its own name and nowhere else
    ([add_record] is the only insertion, and a name is never reassigned), so
    a variable bound to a record of the book is modelled by the key it was
    found or inserted under, and a method call that mutates the record
    writes the changed record back under that key ([mutated]). *)

Module AddressBook.

Record t : Type := mk { records : dict Record.t }.

Definition __init__ : t := mk [].

Definition add_record (self : t) (record : Record.t) : t :=
  mk (dict_set (value (Record.name record)) record (records self)).

Definition find (self : t) (n : str) : option Record.t :=
  dict_get n (records self).

Definition get_all_records (self : t) : list Record.t :=
  dict_values (records self).

Definition mutated (self : t) (key : str) (record : Record.t) : t :=
  mk (dict_set key record (records self)).

Definition to_obj (self : t) : pyobj :=
  PInst __main__ (txt "AddressBook")
    [ (txt "records",
       PDict (List.map (fun kr => (fst kr, Record.to_obj (snd kr)))
                (records self))) ].

(** The book an unpickled object is, when it is one. *)
Definition of_obj (o : pyobj) : option t :=
  match o with
  | PInst m c state =>
      if str_eqb m __main__ && str_eqb c (txt "AddressBook") then
        match dict_get (txt "records") state with
        | Some (PDict items) =>
            option_map mk
              (map_option
                 (fun kv => option_map (pair (fst kv)) (Record.of_obj (snd kv)))
                 items)
        | _ => None
        end
      else None
  | _ => None
  end.

(** Returns the file system after the write. *)
Definition save_to_file (self : t) (filename : str) (fs : filesystem)
    : filesystem :=
  write_wb filename (dump (to_obj self)) fs.

(** An unpickled object that is not a book of this program has no place
    in the embedding; the call raises for it. *)
Definition load_from_file (filename : str) (fs : filesystem) : result t :=
  match open_rb filename fs with
  | Ok content =>
      match load content with
      | Ok o =>
          match of_obj o with
          | Some book => Ok book
          | None => Raise UnpicklingError
          end
      | Raise e => Raise e
      end
  | Raise FileNotFoundError => Ok __init__
  | Raise e => Raise e
  end.

End AddressBook.

(** ** Commands *)

(** Truth value of a [str]. *)
Definition truthy (a : str) : bool := negb (Nat.eqb (List.length a) 0).

(** [sep.join(parts)] *)
Fixpoint join (sep : str) (parts : list str) : str :=
  match parts with
  | [] => []
  | [p] => p
  | p :: more => p ++ sep ++ join sep more
  end.

(** The [ValueError] of [a, b, *_ = args] when [args] is too short. *)
Definition unpack_error (wanted : nat) (args : list str) : exn :=
  ValueError (txt "not enough values to unpack (expected at least "
              ++ str_of_int (Z.of_nat wanted) ++ txt ", got "
              ++ str_of_int (Z.of_nat (List.length args)) ++ txt ")").

(** What a handler leaves behind: its outcome and the book. *)
Definition handler : Type :=
  list str -> AddressBook.t -> result str * AddressBook.t.

(** The decorator: any exception becomes its text; the book stays as the
    handler left it. *)
Definition input_error (func : handler)
    (args : list str) (book : AddressBook.t) : str * AddressBook.t :=
  match func args book with
  | (Ok text, book') => (text, book')
  | (Raise e, book') => (exn_str e, book')
  end.

Definition add_birthday_body : handler := fun args book =>
  match args with
  | name :: birthday :: _ =>
      match AddressBook.find book name with
      | Some record =>
          match Record.add_birthday record birthday with
          | Ok record' =>
              (Ok (txt "Birthday added for " ++ name ++ txt "."),
               AddressBook.mutated book name record')
          | Raise e => (Raise e, book)
          end
      | None => (Ok (txt "Contact not found."), book)
      end
  | _ => (Raise (unpack_error 2 args), book)
  end.

Definition add_birthday := input_error add_birthday_body.

Definition show_birthday_body : handler := fun args book =>
  match args with
  | name :: _ =>
      match AddressBook.find book name with
      | Some record =>
          match Record.birthday record with
          | Some b =>
              (Ok (name ++ txt "'s birthday is on " ++ value b ++ txt "."), book)
          | None => (Ok (txt "Birthday not found."), book)
          end
      | None => (Ok (txt "Birthday not found."), book)
      end
  | _ => (Raise (unpack_error 1 args), book)
  end.

Definition show_birthday := input_error show_birthday_body.

Definition add_contact_body : handler := fun args book =>
  match args with
  | name :: phone :: _ =>
      let message := txt "Contact updated." in
      let created :=
        match AddressBook.find book name with
        | None =>
            match Record.__init__ name with
            | Ok record =>
                Ok (record, AddressBook.add_record book record,
                    txt "Contact added.")
            | Raise e => Raise e
            end
        | Some record => Ok (record, book, message)
        end in
      match created with
      | Ok (record, book, message) =>
          if truthy phone then
            match Record.add_phone record phone with
            | Ok record' => (Ok message, AddressBook.mutated book name record')
            | Raise e => (Raise e, book)
            end
          else (Ok message, book)
      | Raise e => (Raise e, book)
      end
  | _ => (Raise (unpack_error 2 args), book)
  end.

Definition add_contact := input_error add_contact_body.

(** The loop of [change_contact]: the first phone whose value is [old_phone]
    gets the value [new_phone]; [None] when the loop ends without a hit. *)
Fixpoint change_first (old_phone new_phone : str) (phones : list Field)
    : option (list Field) :=
  match phones with
  | [] => None
  | phone :: more =>
      if str_eqb (value phone) old_phone
      then Some (mkField new_phone :: more)
      else
        match change_first old_phone new_phone more with
        | Some more' => Some (phone :: more')
        | None => None
        end
  end.

Definition change_contact_body : handler := fun args book =>
  match args with
  | name :: old_phone :: new_phone :: _ =>
      match AddressBook.find book name with
      | Some record =>
          match change_first old_phone new_phone (Record.phones record) with
          | Some phones' =>
              (Ok (txt "Phone number updated for " ++ name ++ txt "."),
               AddressBook.mutated book name
                 (Record.mk (Record.name record) phones'
                    (Record.birthday record)))
          | None => (Ok (txt "Old phone number not found."), book)
          end
      | None => (Ok (txt "Contact not found."), book)
      end
  | _ => (Raise (unpack_error 3 args), book)
  end.

Definition change_contact := input_error change_contact_body.

Section Birthdays.

Variable repr : str -> str.

(** The list comprehension of [birthdays]: the names of the records that
    pass the filter, in the order of [get_all_records]; the first
    exception of [strptime] ends it. *)
Fixpoint upcoming (today next_week : datetime) (rs : list Record.t)
    : result (list str) :=
  match rs with
  | [] => Ok []
  | record :: more =>
      let keep :=
        match Record.birthday record with
        | None => Ok false
        | Some b =>
            match strptime repr (value b) with
            | Ok date => Ok (datetime_le today date && datetime_le date next_week)
            | Raise e => Raise e
            end
        end in
      match keep with
      | Raise e => Raise e
      | Ok k =>
          match upcoming today next_week more with
          | Raise e => Raise e
          | Ok names =>
              Ok (if k then value (Record.name record) :: names else names)
          end
      end
  end.

(** [today] is what [datetime.today()] returns when the command runs. *)
Definition birthdays_body (today : datetime) : handler := fun args book =>
  match datetime_add today (mkTimedelta 7 0 0) with
  | Raise e => (Raise e, book)
  | Ok next_week =>
      match upcoming today next_week (AddressBook.get_all_records book) with
      | Raise e => (Raise e, book)
      | Ok upcoming_birthdays =>
          (Ok (match upcoming_birthdays with
               | [] => txt "No birthdays in the next week."
               | _ => txt "Upcoming birthdays: "
                      ++ join (txt ", ") upcoming_birthdays
               end), book)
      end
  end.

Definition birthdays (today : datetime) := input_error (birthdays_body today).

End Birthdays.


(** ** The texts [strptime] accepts, said directly

    A day is one character 1-9, or two characters: 0 or a space and then
    1-9, or 1-2 and then any decimal character, or 3 and then 0-1.  A month
    is one character 1-9, or 0 and then 1-9, or 1 and then 0-2.  A year is
    four decimal characters.  The date exists when the year is at least 1,
    the month is in 1..12 and the day is in 1..(days in that month of that
    year). *)

Definition in_range (lo hi c : N) : bool := (lo <=? c)%N && (c <=? hi)%N.

Definition is_day_text (d : str) : bool :=
  match d with
  | [a] => in_range c1 c9 a
  | [a; b] =>
      (((a =? c0)%N || (a =? cspace)%N) && in_range c1 c9 b)
      || (in_range c1 c2 a && is_decimal_char b)
      || ((a =? c3)%N && in_range c0 c1 b)
  | _ => false
  end.

Definition is_month_text (m : str) : bool :=
  match m with
  | [a] => in_range c1 c9 a
  | [a; b] =>
      ((a =? c0)%N && in_range c1 c9 b) || ((a =? c1)%N && in_range c0 c2 b)
  | _ => false
  end.

Definition is_year_text (y : str) : bool :=
  match y with
  | [a; b; c; d] =>
      is_decimal_char a && is_decimal_char b && is_decimal_char c
      && is_decimal_char d
  | _ => false
  end.

Definition date_exists (y m d : Z) : bool :=
  ((1 <=? y) && (y <=? 9999) && (1 <=? m) && (m <=? 12)
   && (1 <=? d) && (d <=? _days_in_month y m))%Z.

(** The shape C3 asks for: two ASCII digits, a dot, two ASCII digits, a dot,
    four ASCII digits. *)
Definition spec_DD_MM_YYYY (v : str) : bool :=
  match v with
  | [d1; d2; p1; m1; m2; p2; y1; y2; y3; y4] =>
      is_ascii_digit d1 && is_ascii_digit d2 && (p1 =? cdot)%N
      && is_ascii_digit m1 && is_ascii_digit m2 && (p2 =? cdot)%N
      && is_ascii_digit y1 && is_ascii_digit y2 && is_ascii_digit y3
      && is_ascii_digit y4
  | _ => false
  end.

(** ** Sample data *)

(** Ten Arabic-Indic digits, U+0660 to U+0669. *)
Definition arabic_indic_phone : str :=
  [0x660; 0x661; 0x662; 0x663; 0x664; 0x665; 0x666; 0x667; 0x668; 0x669]%N.

Definition anna : Record.t :=
  Record.mk (mkField (txt "Anna")) [mkField (txt "0501234567")] None.

Definition book_anna : AddressBook.t := AddressBook.mk [(txt "Anna", anna)].

Definition anna_born_1990 : Record.t :=
  Record.mk (mkField (txt "Anna")) [mkField (txt "0501234567")]
    (Some (mkField (txt "05.11.1990"))).

Definition book_anna_1990 : AddressBook.t :=
  AddressBook.mk [(txt "Anna", anna_born_1990)].

(** 3 November 2026, ten in the morning. *)
Definition today_2026_11_03 : datetime := mkDatetime 2026 11 3 10 0 0 0.

Definition book_two : AddressBook.t :=
  AddressBook.mk [(txt "Anna", anna_born_1990);
                  (txt "Bob", Record.mk (mkField (txt "Bob")) [] None)].


(** ** The rest of the commands and the command loop *)

(** The line [find_contact] returns and the [all] command prints for a
    record. *)
Definition record_line (record : Record.t) : str :=
  txt "Name: " ++ value (Record.name record)
  ++ txt ", Phones: " ++ join (txt ", ") (List.map value (Record.phones record))
  ++ txt ", Birthday: "
  ++ match Record.birthday record with
     | Some b => value b
     | None => txt "N/A"
     end.

Definition find_contact_body : handler := fun args book =>
  match args with
  | name :: _ =>
      match AddressBook.find book name with
      | Some record => (Ok (record_line record), book)
      | None => (Ok (txt "Contact not found."), book)
      end
  | _ => (Raise (unpack_error 1 args), book)
  end.

Definition find_contact := input_error find_contact_body.

(** [text.split()]: the maximal runs of characters that are not white
    space; [word] holds the run being read, last character first. *)
Fixpoint split (a : str) (word : str) : list str :=
  match a with
  | [] =>
      match word with
      | [] => []
      | _ => [rev word]
      end
  | c :: rest =>
      if is_space_char c then
        match word with
        | [] => split rest []
        | _ => rev word :: split rest []
        end
      else split rest (c :: word)
  end.

Definition parse_input (user_input : str) : list str :=
  split (strip user_input) [].

(** What the session writes: the prompts of [input] and the lines of
    [print]. *)
Inductive event : Type :=
| Prompt (text : str)
| Print (text : str).

(** Where the session is after the input it was given: waiting in [input]
    for the next line, ended by close or exit, or ended by an exception
    nothing caught. *)
Inductive status : Type :=
| Waiting
| Ended
| Failed (e : exn).

Record outcome : Type := mkOutcome {
  written : list event;
  last_book : AddressBook.t;
  last_fs : filesystem;
  state : status }.

Definition address_book_pkl : str := txt "address_book.pkl".

(** [x in [a, b, ...]] for strings *)
Definition among (x : str) (candidates : list str) : bool :=
  existsb (fun c => str_eqb x c) candidates.

Definition wrote (events : list event) (o : outcome) : outcome :=
  mkOutcome (events ++ written o) (last_book o) (last_fs o) (state o).

Section Main.

Variable repr : str -> str.

(** One turn of the loop for a command other than close and exit: the lines
    printed and the book afterwards.  [now] is what [datetime.today()]
    returns during the turn. *)
Definition dispatch (now : datetime) (command : str) (args : list str)
    (book : AddressBook.t) : list str * AddressBook.t :=
  if str_eqb command (txt "hello") then ([txt "How can I help you?"], book)
  else if str_eqb command (txt "add") then
    let '(text, book') := add_contact args book in ([text], book')
  else if str_eqb command (txt "change") then
    let '(text, book') := change_contact args book in ([text], book')
  else if str_eqb command (txt "phone") then
    let '(text, book') := find_contact args book in ([text], book')
  else if str_eqb command (txt "all") then
    (List.map record_line (AddressBook.get_all_records book), book)
  else if str_eqb command (txt "add-birthday") then
    let '(text, book') := add_birthday args book in ([text], book')
  else if str_eqb command (txt "show-birthday") then
    let '(text, book') := show_birthday args book in ([text], book')
  else if str_eqb command (txt "birthdays") then
    let '(text, book') := birthdays repr now args book in ([text], book')
  else ([txt "Invalid command."], book).

(** The [while True] loop on the lines typed so far, each with the clock
    reading of its turn. *)
Fixpoint loop (inputs : list (str * datetime)) (book : AddressBook.t)
    (fs : filesystem) : outcome :=
  match inputs with
  | [] => mkOutcome [Prompt (txt "Enter a command: ")] book fs Waiting
  | (user_input, now) :: more =>
      wrote [Prompt (txt "Enter a command: ")]
        match parse_input user_input with
        | [] => mkOutcome [] book fs (Failed (unpack_error 1 []))
        | command :: args =>
            if among command [txt "close"; txt "exit"] then
              mkOutcome [Print (txt "Good bye!")] book
                (AddressBook.save_to_file book address_book_pkl fs) Ended
            else
              let '(lines, book') := dispatch now command args book in
              wrote (List.map Print lines) (loop more book' fs)
        end
  end.

(** [main()]: the exception when loading the book raises, before anything is
    written. *)
Definition main (inputs : list (str * datetime)) (fs : filesystem)
    : result outcome :=
  match AddressBook.load_from_file address_book_pkl fs with
  | Ok book =>
      Ok (wrote [Print (txt "Welcome to the assistant bot!")]
            (loop inputs book fs))
  | Raise e => Raise e
  end.

End Main.

(** ** What holds of every book the commands build *)

(** The book is a dict (no name twice) and every record sits under its own
    name. *)
Definition book_ok (book : AddressBook.t) : Prop :=
  NoDup (dict_keys (AddressBook.records book))
  /\ forall k r, In (k, r) (AddressBook.records book) ->
       value (Record.name r) = k.

(** Every stored birthday is a text [Birthday] accepts. *)
Definition birthdays_valid (book : AddressBook.t) : Prop :=
  forall k r b, In (k, r) (AddressBook.records book) ->
    Record.birthday r = Some b -> Birthday.__init__ (value b) = Ok b.

(** Every stored phone is a text [Phone] accepts. *)
Definition phones_valid (book : AddressBook.t) : Prop :=
  forall k r p, In (k, r) (AddressBook.records book) ->
    In p (Record.phones r) -> Phone.__init__ (value p) = Ok p.

(** The filter of [birthdays] on one record, read from [_strptime]. *)
Definition due (today next_week : datetime) (record : Record.t) : bool :=
  match Record.birthday record with
  | Some b =>
      match _strptime (value b) with
      | inr date => datetime_le today date && datetime_le date next_week
      | inl _ => false
      end
  | None => false
  end.

(** The hour, minute, second and microsecond of a datetime are in range. *)
Definition time_in_range (t : datetime) : Prop :=
  (0 <= hour t < 24 /\ 0 <= minute t < 60 /\ 0 <= second t < 60
   /\ 0 <= microsecond t < 1000000)%Z.

(** Every object on the stack of the unpickler is well formed. *)
Definition stack_wf (stack : list item) : Prop :=
  forall o, In (IObj o) stack -> wf o.

(** The record [from_dict] builds from a dict, when it builds one. *)
Definition built (d : Record.data) : Record.t :=
  Record.mk (mkField (Record.data_name d))
    (List.map mkField (Record.data_phones d))
    (match Record.data_birthday d with
     | Some (c :: b) => Some (mkField (c :: b))
     | _ => None
     end).

Definition anna_two_phones : Record.t :=
  Record.mk (mkField (txt "Anna"))
    [mkField (txt "0670000000"); mkField (txt "0501234567");
     mkField (txt "0501234567")] None.

(** 28 December 9999, at noon. *)
Definition late_9999 : datetime := mkDatetime 9999 12 28 12 0 0 0.

(** No name is a key of the book twice. *)
Definition keys_nodup (book : AddressBook.t) : Prop :=
  NoDup (dict_keys (AddressBook.records book)).
(** * Properties *)

(** ** Strings and dicts *)

Lemma str_eqb_eq (a b : str) : str_eqb a b = true <-> a = b.
Proof.
  revert b. induction a as [|x a IH]; intros [|y b]; simpl;
    try (split; [discriminate | congruence]); [tauto|].
  rewrite andb_true_iff, N.eqb_eq, IH. split.
  - intros [-> ->]. reflexivity.
  - intros H. injection H as -> ->. auto.
Qed.

Lemma str_eqb_refl (a : str) : str_eqb a a = true.
Proof. now apply str_eqb_eq. Qed.

Lemma str_eqb_neq (a b : str) : str_eqb a b = false <-> a <> b.
Proof.
  rewrite <- str_eqb_eq. destruct (str_eqb a b); split; congruence.
Qed.

Lemma dict_get_set_same V (k : str) (v : V) (d : dict V) :
  dict_get k (dict_set k v d) = Some v.
Proof.
  induction d as [|[k' v'] d IH]; simpl.
  - now rewrite str_eqb_refl.
  - destruct (str_eqb k' k) eqn:E; simpl; rewrite E; auto.
Qed.

Lemma dict_get_set_other V (k k0 : str) (v : V) (d : dict V) :
  k <> k0 -> dict_get k0 (dict_set k v d) = dict_get k0 d.
Proof.
  intros Hne. induction d as [|[k' v'] d IH]; simpl.
  - apply str_eqb_neq in Hne. now rewrite Hne.
  - destruct (str_eqb k' k) eqn:E; simpl.
    + apply str_eqb_eq in E. subst k'.
      apply str_eqb_neq in Hne. now rewrite Hne.
    + destruct (str_eqb k' k0); auto.
Qed.

Lemma dict_keys_set_present V (k : str) (v v0 : V) (d : dict V) :
  dict_get k d = Some v0 -> dict_keys (dict_set k v d) = dict_keys d.
Proof.
  induction d as [|[k' v'] d IH]; simpl; [discriminate|].
  destruct (str_eqb k' k) eqn:E; simpl; intros H; [reflexivity|].
  now rewrite IH.
Qed.

(** ** Phones *)

Lemma forallb_false_iff A (f : A -> bool) (l : list A) :
  forallb f l = false <-> exists x, In x l /\ f x = false.
Proof.
  induction l as [|a l IH]; simpl.
  - split; [discriminate | intros [x [[] _]]].
  - destruct (f a) eqn:E; simpl.
    + rewrite IH. split; intros [x [H1 H2]]; exists x; intuition congruence.
    + split; [intros _; exists a; auto | auto].
Qed.

Lemma ascii_digit_is_digit (c : N) :
  is_ascii_digit c = true -> is_digit_char c = true.
Proof.
  unfold is_ascii_digit, is_digit_char, is_decimal_char, in_ranges.
  intros H. simpl. change (N.leb 48 c && N.leb c 57) with ((48 <=? c)%N && (c <=? 57)%N).
  rewrite H. reflexivity.
Qed.

Lemma Phone_init_cases (v : str) :
  Phone.__init__ v =
    if (len v =? 10)%Z && forallb is_digit_char v
    then Ok (mkField v)
    else Raise (ValueError (txt "Phone number must be 10 digits.")).
Proof.
  unfold Phone.__init__, isdigit, len.
  destruct v as [|c v]; [reflexivity|].
  cbn [List.length Nat.eqb negb andb].
  destruct (forallb is_digit_char (c :: v)), (Z.of_nat (S (List.length v)) =? 10)%Z;
    reflexivity.
Qed.

(** C2, as stated, fails: the ten Arabic-Indic digits U+0660..U+0669 are ten
    characters, none of them in 0-9, yet [Phone] accepts them, because
    [str.isdigit] accepts every Unicode digit. *)
Lemma Phone_accepts_non_ascii_digits :
  ~ (Phone.__init__ arabic_indic_phone
       = Raise (ValueError (txt "Phone number must be 10 digits."))
     <-> (len arabic_indic_phone <> 10%Z
          \/ forallb is_ascii_digit arabic_indic_phone = false)).
Proof.
  intros [_ H].
  assert (E : Phone.__init__ arabic_indic_phone
              = Raise (ValueError (txt "Phone number must be 10 digits."))).
  { apply H. right. reflexivity. }
  vm_compute in E. discriminate E.
Qed.

(** C2, amended: [Phone] construction fails, with the ValueError "Phone
    number must be 10 digits.", exactly when the text is not ten characters
    long or holds a character that is not a Unicode digit in the sense of
    [str.isdigit]; in every other case it succeeds and stores the text
    unchanged.  In particular every text of exactly ten ASCII digits is
    accepted and stored as it was given. *)
Theorem Phone_init_spec (v : str) :
  (Phone.__init__ v = Raise (ValueError (txt "Phone number must be 10 digits."))
   <-> (len v <> 10%Z \/ exists c, In c v /\ is_digit_char c = false))
  /\ (Phone.__init__ v = Ok (mkField v)
      <-> (len v = 10%Z /\ forall c, In c v -> is_digit_char c = true))
  /\ (len v = 10%Z -> forallb is_ascii_digit v = true ->
      exists p, Phone.__init__ v = Ok p /\ value p = v).
Proof.
  rewrite Phone_init_cases.
  destruct (len v =? 10)%Z eqn:L; [apply Z.eqb_eq in L | apply Z.eqb_neq in L];
    cbn [andb].
  - destruct (forallb is_digit_char v) eqn:F.
    + pose proof (proj1 (forallb_forall _ _) F) as F'.
      repeat split; try discriminate; auto.
      * intros [H | [c [Hin Hc]]]; [contradiction|].
        rewrite (F' c Hin) in Hc. discriminate.
      * intros _ _. exists (mkField v). auto.
    + pose proof (proj1 (forallb_false_iff _ _) F) as F'.
      repeat split; try discriminate; auto.
      * intros [_ H]. apply forallb_forall in H. congruence.
      * intros _ A. exfalso.
        assert (forallb is_digit_char v = true); [|congruence].
        apply forallb_forall. intros c Hc. apply ascii_digit_is_digit.
        revert c Hc. now apply forallb_forall.
  - repeat split; try discriminate; auto; tauto.
Qed.

Lemma Phone_init_spec_witness :
  len (txt "0501234567") = 10%Z
  /\ forallb is_ascii_digit (txt "0501234567") = true
  /\ exists p, Phone.__init__ (txt "0501234567") = Ok p
               /\ value p = txt "0501234567".
Proof.
  split; [reflexivity|]. split; [reflexivity|].
  apply (proj2 (proj2 (Phone_init_spec (txt "0501234567")))); reflexivity.
Defined.

(** ** Records *)

(** C7, as stated, fails: a record with the empty name is created without
    any error. *)
Lemma Record_accepts_empty_name :
  ~ (exists e, Record.__init__ (txt "") = Raise e).
Proof. intros [e H]. discriminate H. Qed.

(** C7, amended: [Record] creation never fails: for every name text, the
    empty one included, it yields a record with that name, no phones and no
    birthday. *)
Theorem Record_init_total (n : str) :
  Record.__init__ n = Ok (Record.mk (mkField n) [] None).
Proof. reflexivity. Qed.

(** ** Commands *)

(** C10: [show_birthday] answers "Birthday not found." both when the book
    has no record of that name and when the record has no birthday; the two
    cases give the same text and leave the book as it was. *)
Theorem show_birthday_not_found (book : AddressBook.t) (name : str)
    (rest : list str) :
  (AddressBook.find book name = None
   \/ exists record, AddressBook.find book name = Some record
                     /\ Record.birthday record = None) ->
  show_birthday (name :: rest) book = (txt "Birthday not found.", book).
Proof.
  unfold show_birthday, input_error, show_birthday_body.
  intros [H | [record [H B]]]; rewrite H; [reflexivity|].
  rewrite B. reflexivity.
Qed.

Lemma show_birthday_not_found_witness :
  show_birthday [txt "Bob"] book_anna = (txt "Birthday not found.", book_anna)
  /\ show_birthday [txt "Anna"] book_anna = (txt "Birthday not found.", book_anna).
Proof.
  split.
  - apply show_birthday_not_found. left. reflexivity.
  - apply show_birthday_not_found. right. exists anna. split; reflexivity.
Defined.

Lemma Phone_ok_truthy (phone : str) (p : Field) :
  Phone.__init__ phone = Ok p -> truthy phone = true /\ p = mkField phone.
Proof.
  rewrite Phone_init_cases.
  destruct (len phone =? 10)%Z eqn:L; cbn [andb]; [|discriminate].
  destruct (forallb is_digit_char phone); [|discriminate].
  intros H. injection H as <-. split; [|reflexivity].
  destruct phone; [discriminate L | reflexivity].
Qed.

Lemma find_mutated_same (book : AddressBook.t) (key : str) (r : Record.t) :
  AddressBook.find (AddressBook.mutated book key r) key = Some r.
Proof. apply dict_get_set_same. Qed.

Lemma find_mutated_other (book : AddressBook.t) (key k : str) (r : Record.t) :
  key <> k ->
  AddressBook.find (AddressBook.mutated book key r) k = AddressBook.find book k.
Proof. apply dict_get_set_other. Qed.

(** C9: [add_record] under an existing name puts the new record in the
    place of the old one, whatever the old one held, and touches no other
    name; [add_contact] with an existing name and a valid phone keeps the
    record, with its name, its phones and its birthday, and appends the
    phone to it; with any phone at all the stored phones stay a prefix of
    the record's phones and the birthday stays. *)
Theorem add_record_replaces_add_contact_appends :
  (forall (book : AddressBook.t) (record : Record.t),
      AddressBook.find (AddressBook.add_record book record)
        (value (Record.name record)) = Some record
      /\ forall k, k <> value (Record.name record) ->
           AddressBook.find (AddressBook.add_record book record) k
           = AddressBook.find book k)
  /\ (forall (book : AddressBook.t) (name phone : str) (rest : list str)
             (old : Record.t) (p : Field),
        AddressBook.find book name = Some old ->
        Phone.__init__ phone = Ok p ->
        exists book',
          add_contact (name :: phone :: rest) book
            = (txt "Contact updated.", book')
          /\ AddressBook.find book' name
             = Some (Record.mk (Record.name old) (Record.phones old ++ [p])
                       (Record.birthday old))
          /\ value p = phone
          /\ dict_keys (AddressBook.records book')
             = dict_keys (AddressBook.records book)
          /\ forall k, k <> name ->
               AddressBook.find book' k = AddressBook.find book k)
  /\ (forall (book : AddressBook.t) (name phone : str) (rest : list str)
             (old : Record.t),
        AddressBook.find book name = Some old ->
        exists now extra,
          AddressBook.find (snd (add_contact (name :: phone :: rest) book)) name
            = Some now
          /\ Record.name now = Record.name old
          /\ Record.phones now = Record.phones old ++ extra
          /\ Record.birthday now = Record.birthday old).
Proof.
  split; [|split].
  - intros book record. split.
    + apply dict_get_set_same.
    + intros k Hk. apply dict_get_set_other. congruence.
  - intros book name phone rest old p Hfind Hp.
    destruct (Phone_ok_truthy _ Hp) as [Ht ->].
    exists (AddressBook.mutated book name
              (Record.mk (Record.name old)
                 (Record.phones old ++ [mkField phone]) (Record.birthday old))).
    unfold add_contact, input_error, add_contact_body, Record.add_phone.
    rewrite Hfind, Ht, Hp. split; [reflexivity|].
    split; [apply find_mutated_same|]. split; [reflexivity|]. split.
    + apply dict_keys_set_present with (v0 := old). exact Hfind.
    + intros k Hk. apply find_mutated_other. congruence.
  - intros book name phone rest old Hfind.
    unfold add_contact, input_error, add_contact_body, Record.add_phone.
    rewrite Hfind.
    destruct (truthy phone).
    + destruct (Phone.__init__ phone) as [p|e]; cbn [snd].
      * eexists. exists [p]. rewrite find_mutated_same. repeat split.
      * exists old, []. rewrite app_nil_r. auto.
    + exists old, []. cbn [snd]. rewrite app_nil_r. auto.
Qed.

Lemma add_record_replaces_add_contact_appends_witness :
  exists book',
    add_contact [txt "Anna"; txt "0509999999"] book_anna
      = (txt "Contact updated.", book')
    /\ AddressBook.find book' (txt "Anna")
       = Some (Record.mk (mkField (txt "Anna"))
                 [mkField (txt "0501234567"); mkField (txt "0509999999")] None).
Proof.
  destruct (proj1 (proj2 add_record_replaces_add_contact_appends)
              book_anna (txt "Anna") (txt "0509999999") [] anna
              (mkField (txt "0509999999")) eq_refl eq_refl)
    as [book' [H1 [H2 _]]].
  exists book'. split; [exact H1 | exact H2].
Defined.

(** What the loop of [change_contact] does to the phones. *)
Lemma change_first_none (old_phone new_phone : str) (phones : list Field) :
  change_first old_phone new_phone phones = None
  <-> ~ In old_phone (List.map value phones).
Proof.
  induction phones as [|p more IH]; simpl.
  - tauto.
  - destruct (str_eqb (value p) old_phone) eqn:E.
    + apply str_eqb_eq in E. split; [discriminate | tauto].
    + apply str_eqb_neq in E.
      destruct (change_first old_phone new_phone more).
      * split; [discriminate|]. intros H. exfalso. apply H. right.
        destruct (in_dec (list_eq_dec N.eq_dec) old_phone (List.map value more)); auto.
        now apply IH in n.
      * split; auto. intros _ [H|H]; [congruence|]. now apply IH.
Qed.

Lemma change_first_some (old_phone new_phone : str) (phones phones' : list Field) :
  change_first old_phone new_phone phones = Some phones' ->
  exists before p after,
    phones = before ++ p :: after
    /\ value p = old_phone
    /\ ~ In old_phone (List.map value before)
    /\ phones' = before ++ mkField new_phone :: after.
Proof.
  revert phones'. induction phones as [|p more IH]; simpl; [discriminate|].
  intros phones'. destruct (str_eqb (value p) old_phone) eqn:E.
  - apply str_eqb_eq in E. intros H. injection H as <-.
    exists [], p, more. simpl. auto.
  - apply str_eqb_neq in E.
    destruct (change_first old_phone new_phone more) as [more'|]; [|discriminate].
    intros H. injection H as <-.
    destruct (IH more' eq_refl) as [before [q [after [H1 [H2 [H3 H4]]]]]].
    exists (p :: before), q, after. subst. simpl. repeat split; auto.
    intros [H|H]; auto.
Qed.

(** X24: when the record holds no phone equal to the old one,
    [change_contact] answers "Old phone number not found." and leaves the
    book as it was. *)
Lemma change_contact_not_found (book : AddressBook.t) (name old_phone new_phone : str)
    (rest : list str) (record : Record.t) :
  AddressBook.find book name = Some record ->
  ~ In old_phone (List.map value (Record.phones record)) ->
  change_contact (name :: old_phone :: new_phone :: rest) book
  = (txt "Old phone number not found.", book).
Proof.
  intros F N. unfold change_contact, input_error, change_contact_body.
  rewrite F. apply (change_first_none old_phone new_phone) in N.
  now rewrite N.
Qed.

(** X5: when the record holds a phone equal to the old one,
    [change_contact] gives the first such phone the new text where it
    stands: the phones before it and after it, the name and the birthday
    stay. *)
Lemma change_contact_found (book : AddressBook.t) (name old_phone new_phone : str)
    (rest : list str) (record : Record.t) (before after : list Field) (p : Field) :
  AddressBook.find book name = Some record ->
  Record.phones record = before ++ p :: after ->
  value p = old_phone ->
  ~ In old_phone (List.map value before) ->
  AddressBook.find
    (snd (change_contact (name :: old_phone :: new_phone :: rest) book)) name
  = Some (Record.mk (Record.name record)
            (before ++ mkField new_phone :: after) (Record.birthday record)).
Proof.
  intros F E V N. unfold change_contact, input_error, change_contact_body.
  rewrite F.
  destruct (change_first old_phone new_phone (Record.phones record))
    as [phones'|] eqn:C.
  - cbn [snd]. rewrite find_mutated_same.
    apply change_first_some in C
      as (before' & q & after' & E' & V' & N' & ->).
    rewrite E in E'.
    assert (before = before' /\ after = after') as [<- <-].
    { clear - E' V V' N N'. revert before' E' N'.
      induction before as [|x before IH]; intros [|y before'] E' N'; simpl in *.
      - injection E' as _ ->. auto.
      - injection E' as -> _. exfalso. apply N'. left. exact V.
      - injection E' as -> _. exfalso. apply N. left. exact V'.
      - injection E' as -> E'.
        destruct (IH (fun H => N (or_intror H)) before' E'
                    (fun H => N' (or_intror H))) as [-> ->]. auto. }
    reflexivity.
  - apply change_first_none in C. exfalso. apply C.
    rewrite E, map_app. apply in_or_app. right. left. exact V.
Qed.

(** C4, at the failing input: the record "Anna" holds the phone
    "0501234567"; changing it to "x", which [Phone] refuses, is reported as
    done and leaves "x" among the phones: [change_contact] assigns the new
    text to the phone object and never calls the constructor. *)
Theorem change_contact_stores_invalid_phone :
  Phone.__init__ (txt "x")
    = Raise (ValueError (txt "Phone number must be 10 digits."))
  /\ change_contact [txt "Anna"; txt "0501234567"; txt "x"] book_anna
     = (txt "Phone number updated for Anna.",
        AddressBook.mk
          [(txt "Anna", Record.mk (mkField (txt "Anna")) [mkField (txt "x")] None)]).
Proof. split; reflexivity. Qed.

(** The other ways a command fails on a bad phone or date leave the book as
    it was. *)
Lemma add_contact_known_name_invalid_phone (book : AddressBook.t)
    (name phone : str) (rest : list str) (record : Record.t) (e : exn) :
  AddressBook.find book name = Some record ->
  Phone.__init__ phone = Raise e ->
  snd (add_contact (name :: phone :: rest) book) = book.
Proof.
  intros F P. unfold add_contact, input_error, add_contact_body, Record.add_phone.
  rewrite F, P. destruct (truthy phone); reflexivity.
Qed.

Lemma add_birthday_invalid_date (book : AddressBook.t) (name date : str)
    (rest : list str) (e : exn) :
  Birthday.__init__ date = Raise e ->
  snd (add_birthday (name :: date :: rest) book) = book.
Proof.
  intros B. unfold add_birthday, input_error, add_birthday_body,
    Record.add_birthday.
  destruct (AddressBook.find book name); [rewrite B|]; reflexivity.
Qed.

(** C5, at the failing input: on the empty book, [add_contact] with the
    name "Anna" and the phone "123" answers with the text of the
    ValueError, and the book now holds a record "Anna" without phones: the
    record is inserted before the phone is validated. *)
Theorem add_contact_invalid_phone_leaves_record :
  AddressBook.find AddressBook.__init__ (txt "Anna") = None
  /\ add_contact [txt "Anna"; txt "123"] AddressBook.__init__
     = (txt "Phone number must be 10 digits.",
        AddressBook.mk
          [(txt "Anna", Record.mk (mkField (txt "Anna")) [] None)]).
Proof. split; reflexivity. Qed.

(** What [birthdays] lists: every name it gives belongs to a record whose
    birthday, read as the full date it was entered with, lies between the
    moment of the call and seven days later. *)
Lemma upcoming_sound (repr : str -> str) (today next_week : datetime)
    (rs : list Record.t) (names : list str) :
  upcoming repr today next_week rs = Ok names ->
  forall n, In n names ->
    exists record b date,
      In record rs /\ value (Record.name record) = n
      /\ Record.birthday record = Some b
      /\ strptime repr (value b) = Ok date
      /\ datetime_le today date = true /\ datetime_le date next_week = true.
Proof.
  revert names. induction rs as [|record rs IH]; intros names; simpl.
  - intros H. injection H as <-. intros n [].
  - destruct (Record.birthday record) as [b|] eqn:B.
    + destruct (strptime repr (value b)) as [date|e] eqn:S; [|discriminate].
      destruct (upcoming repr today next_week rs) as [names'|e]; [|discriminate].
      destruct (datetime_le today date && datetime_le date next_week) eqn:K;
        intros H; injection H as <-; intros n I.
      * destruct I as [<- | I].
        -- apply andb_true_iff in K as [K1 K2].
           exists record, b, date. auto 10.
        -- destruct (IH names' eq_refl n I) as (r & b' & d' & Hin & H').
           exists r, b', d'. split; [now right | exact H'].
      * destruct (IH names' eq_refl n I) as (r & b' & d' & Hin & H').
        exists r, b', d'. split; [now right | exact H'].
    + destruct (upcoming repr today next_week rs) as [names'|e]; [|discriminate].
      intros H. injection H as <-. intros n I.
      destruct (IH names' eq_refl n I) as (r & b' & d' & Hin & H').
      exists r, b', d'. split; [now right | exact H'].
Qed.

(** C6, at the failing input: on 3 November 2026 the book holds "Anna",
    born on "05.11.1990".  Her birthday in the current year, 5 November
    2026, lies between today and today plus seven days, yet [birthdays]
    lists nobody: it compares the date as stored, year 1990 included. *)
Theorem birthdays_ignores_past_years (repr : str -> str) :
  datetime_add today_2026_11_03 (mkTimedelta 7 0 0)
    = Ok (mkDatetime 2026 11 10 10 0 0 0)
  /\ datetime_le today_2026_11_03 (mkDatetime 2026 11 5 0 0 0 0) = true
  /\ datetime_le (mkDatetime 2026 11 5 0 0 0 0) (mkDatetime 2026 11 10 10 0 0 0)
     = true
  /\ birthdays repr today_2026_11_03 [] book_anna_1990
     = (txt "No birthdays in the next week.", book_anna_1990).
Proof. repeat split; reflexivity. Qed.

(** ** Birthdays: what the pattern matches *)

Lemma match_alt_sound (alt : list cclass) (a got rest : str) :
  match_alt alt a = Some (got, rest) ->
  a = got ++ rest /\ Forall2 (fun k c => cclass_match k c = true) alt got.
Proof.
  revert a got rest. induction alt as [|k alt IH]; intros a got rest; simpl.
  - intros H. injection H as <- <-. split; [reflexivity | constructor].
  - destruct a as [|c a]; [discriminate|].
    destruct (cclass_match k c) eqn:E; [|discriminate].
    destruct (match_alt alt a) as [[got' rest']|] eqn:M; [|discriminate].
    intros H. injection H as <- <-.
    destruct (IH _ _ _ M) as [-> F]. split; [reflexivity | now constructor].
Qed.

Lemma match_alt_complete (alt : list cclass) (got rest : str) :
  Forall2 (fun k c => cclass_match k c = true) alt got ->
  match_alt alt (got ++ rest) = Some (got, rest).
Proof.
  induction 1 as [|k c alt got E F IH]; simpl; [reflexivity|].
  now rewrite E, IH.
Qed.

Lemma try_alts_sound rest_of_pattern name alts a found final :
  try_alts rest_of_pattern name alts a = Some (found, final) ->
  exists alt got rest groups,
    In alt alts /\ match_alt alt a = Some (got, rest)
    /\ rest_of_pattern rest = Some (groups, final)
    /\ found = bind_group name got groups.
Proof.
  induction alts as [|alt more IH]; simpl; [discriminate|].
  destruct (match_alt alt a) as [[got rest]|] eqn:M.
  - destruct (rest_of_pattern rest) as [[groups final']|] eqn:K.
    + intros H. injection H as <- <-.
      exists alt, got, rest, groups. auto.
    + intros H. destruct (IH H) as (alt' & got' & rest' & groups' & Hin & H').
      exists alt', got', rest', groups'. auto.
  - intros H. destruct (IH H) as (alt' & got' & rest' & groups' & Hin & H').
    exists alt', got', rest', groups'. auto.
Qed.

Ltac invert_classes :=
  repeat match goal with
         | H : Forall2 _ (_ :: _) _ |- _ => inversion H; clear H; subst
         | H : Forall2 _ [] _ |- _ => inversion H; clear H; subst
         end.

Ltac split_alts H :=
  repeat (destruct H as [H | H]; [symmetry in H; subst|]); try contradiction.

Lemma format_regex_sound (v : str) found final :
  match_here format_regex v = Some (found, final) ->
  exists d m y,
    v = d ++ cdot :: m ++ cdot :: y ++ final
    /\ found = [("d"%char, d); ("m"%char, m); ("Y"%char, y)]
    /\ is_day_text d = true /\ is_month_text m = true
    /\ is_year_text y = true.
Proof.
  unfold format_regex. cbn [match_here]. intros H.
  apply try_alts_sound in H as (ad & d & r1 & g1 & Hd & Md & H & ->).
  apply try_alts_sound in H as (ap & p & r2 & g2 & Hp & Mp & H & ->).
  apply try_alts_sound in H as (am & m & r3 & g3 & Hm & Mm & H & ->).
  apply try_alts_sound in H as (aq & q & r4 & g4 & Hq & Mq & H & ->).
  apply try_alts_sound in H as (ay & y & r5 & g5 & Hy & My & H & ->).
  injection H as <- <-.
  apply match_alt_sound in Md as [-> Fd], Mp as [-> Fp], Mm as [-> Fm],
    Mq as [-> Fq], My as [-> Fy].
  exists d, m, y.
  simpl in Hp, Hq, Hy. split_alts Hp. split_alts Hq. split_alts Hy.
  invert_classes. cbn [cclass_match] in *.
  repeat match goal with
         | H : (_ =? cdot)%N = true |- _ => apply N.eqb_eq in H; subst
         end.
  split; [reflexivity|]. split; [reflexivity|].
  split; [|split].
  - simpl in Hd. split_alts Hd; invert_classes; cbn [cclass_match] in *;
      unfold is_day_text, in_range;
      repeat match goal with H : _ = true |- _ => rewrite H; clear H end;
      rewrite ?orb_true_r; reflexivity.
  - simpl in Hm. split_alts Hm; invert_classes; cbn [cclass_match] in *;
      unfold is_month_text, in_range;
      repeat match goal with H : _ = true |- _ => rewrite H; clear H end;
      rewrite ?orb_true_r; reflexivity.
  - unfold is_year_text.
    repeat match goal with H : _ = true |- _ => rewrite H; clear H end.
    reflexivity.
Qed.

Lemma is_decimal_cdot : is_decimal_char cdot = false.
Proof. reflexivity. Qed.

Lemma try_alts_skip rest_of_pattern name alt more a :
  match_alt alt a = None ->
  try_alts rest_of_pattern name (alt :: more) a
  = try_alts rest_of_pattern name more a.
Proof. intros H. simpl. now rewrite H. Qed.

Lemma try_alts_take rest_of_pattern name alt more a got rest groups final :
  match_alt alt a = Some (got, rest) ->
  rest_of_pattern rest = Some (groups, final) ->
  try_alts rest_of_pattern name (alt :: more) a
  = Some (bind_group name got groups, final).
Proof. intros H K. simpl. now rewrite H, K. Qed.

Lemma try_alts_take_named rest_of_pattern n alt more a got rest groups final :
  match_alt alt a = Some (got, rest) ->
  rest_of_pattern rest = Some (groups, final) ->
  try_alts rest_of_pattern (Some n) (alt :: more) a
  = Some ((n, got) :: groups, final).
Proof. apply try_alts_take. Qed.

Ltac bool_facts :=
  repeat match goal with
         | H : _ && _ = true |- _ => apply andb_true_iff in H; destruct H
         | H : _ || _ = true |- _ => apply orb_true_iff in H; destruct H
         | H : _ && _ = false |- _ => apply andb_false_iff in H; destruct H
         | H : (_ =? _)%N = true |- _ => apply N.eqb_eq in H
         | H : (_ =? _)%N = false |- _ => apply N.eqb_neq in H
         | H : (_ <=? _)%N = true |- _ => apply N.leb_le in H
         | H : (_ <=? _)%N = false |- _ => apply N.leb_gt in H
         end.

(** Decides one alternative on a text whose first characters are known by
    the hypotheses. *)
Ltac decide_alt :=
  cbn [match_alt cclass_match app];
  rewrite ?is_decimal_cdot;
  repeat match goal with
         | |- context [if ?b then _ else _] => destruct b eqn:?
         end;
  try reflexivity;
  exfalso; try congruence; bool_facts;
  unfold c0, c1, c2, c3, c9, cspace, cdot in *; subst; try discriminate; lia.

Ltac walk_alts :=
  repeat first
    [ rewrite try_alts_skip by decide_alt
    | eapply try_alts_take_named; [decide_alt | eassumption] ].

Lemma day_group_complete rest_of_pattern (d rest : str) groups final :
  is_day_text d = true ->
  rest_of_pattern (cdot :: rest) = Some (groups, final) ->
  try_alts rest_of_pattern (Some "d"%char)
    [ [CChar c3; CRange c0 c1]; [CRange c1 c2; CDigit];
      [CChar c0; CRange c1 c9]; [CRange c1 c9]; [CChar cspace; CRange c1 c9] ]
    (d ++ cdot :: rest)
  = Some (("d"%char, d) :: groups, final).
Proof.
  intros Hd K.
  destruct d as [|a [|b [|? ?]]]; try discriminate Hd;
    unfold is_day_text, in_range in Hd; bool_facts; walk_alts.
Qed.

Lemma month_group_complete rest_of_pattern (m rest : str) groups final :
  is_month_text m = true ->
  rest_of_pattern (cdot :: rest) = Some (groups, final) ->
  try_alts rest_of_pattern (Some "m"%char)
    [ [CChar c1; CRange c0 c2]; [CChar c0; CRange c1 c9]; [CRange c1 c9] ]
    (m ++ cdot :: rest)
  = Some (("m"%char, m) :: groups, final).
Proof.
  intros Hm K.
  destruct m as [|a [|b [|? ?]]]; try discriminate Hm;
    unfold is_month_text, in_range in Hm; bool_facts; walk_alts.
Qed.

Lemma dot_group_complete rest_of_pattern (rest : str) groups final :
  rest_of_pattern rest = Some (groups, final) ->
  try_alts rest_of_pattern None [ [CChar cdot] ] (cdot :: rest)
  = Some (groups, final).
Proof.
  intros K.
  apply (try_alts_take rest_of_pattern None [CChar cdot] [] (cdot :: rest)
           (got := [cdot]) (rest := rest)); [reflexivity | exact K].
Qed.

Lemma year_group_complete (y final : str) :
  is_year_text y = true ->
  try_alts (match_here []) (Some "Y"%char) [ [CDigit; CDigit; CDigit; CDigit] ]
    (y ++ final)
  = Some ([("Y"%char, y)], final).
Proof.
  intros Hy.
  destruct y as [|y1 [|y2 [|y3 [|y4 [|? ?]]]]]; try discriminate Hy.
  unfold is_year_text in Hy. bool_facts.
  apply try_alts_take_named with (rest := final); [|reflexivity].
  apply (match_alt_complete (got := [y1; y2; y3; y4])).
  repeat constructor; assumption.
Qed.

Lemma format_regex_complete (d m y final : str) :
  is_day_text d = true -> is_month_text m = true -> is_year_text y = true ->
  match_here format_regex (d ++ cdot :: m ++ cdot :: y ++ final)
  = Some ([("d"%char, d); ("m"%char, m); ("Y"%char, y)], final).
Proof.
  intros Hd Hm Hy. unfold format_regex. cbn [match_here].
  apply day_group_complete; [exact Hd|].
  apply dot_group_complete.
  apply month_group_complete; [exact Hm|].
  apply dot_group_complete.
  now apply year_group_complete.
Qed.

Lemma check_date_fields_exists (y m d : Z) :
  _check_date_fields y m d = Ok (y, m, d) <-> date_exists y m d = true.
Proof.
  unfold _check_date_fields, date_exists, MINYEAR, MAXYEAR.
  destruct (1 <=? y)%Z, (y <=? 9999)%Z, (1 <=? m)%Z, (m <=? 12)%Z,
    (1 <=? d)%Z, (d <=? _days_in_month y m)%Z; cbn;
    split; intros H; try reflexivity; discriminate H.
Qed.

Lemma check_date_fields_ok (y m d : Z) (r : Z * Z * Z) :
  _check_date_fields y m d = Ok r -> r = (y, m, d).
Proof.
  unfold _check_date_fields.
  repeat match goal with
         | |- context [if ?b then _ else _] => destruct b
         end; intros H; try discriminate H.
  now injection H.
Qed.

(** What [_strptime] accepts. *)
Lemma strptime_accepts (v : str) (t : datetime) :
  _strptime v = inr t <->
  exists d m y dv mv yv,
    v = d ++ cdot :: m ++ cdot :: y
    /\ is_day_text d = true /\ is_month_text m = true /\ is_year_text y = true
    /\ int d = Some dv /\ int m = Some mv /\ int y = Some yv
    /\ date_exists yv mv dv = true
    /\ t = mkDatetime yv mv dv 0 0 0 0.
Proof.
  unfold _strptime. split.
  - destruct (match_here format_regex v) as [[found rest]|] eqn:M; [|discriminate].
    apply format_regex_sound in M as (d & m & y & -> & -> & Hd & Hm & Hy).
    destruct rest as [|? ?]; [|discriminate]. cbn [List.length Nat.eqb negb].
    cbn [group_get Ascii.eqb Bool.eqb].
    destruct (int y) as [yv|] eqn:Iy; [|discriminate].
    destruct (int m) as [mv|] eqn:Im; [|discriminate].
    destruct (int d) as [dv|] eqn:Id; [|discriminate].
    destruct (_check_date_fields yv mv dv) as [r|e] eqn:C; [|discriminate].
    intros H. injection H as <-.
    pose proof (check_date_fields_ok _ _ _ C) as ->.
    apply check_date_fields_exists in C.
    exists d, m, y, dv, mv, yv. rewrite app_nil_r. repeat split; assumption.
  - intros (d & m & y & dv & mv & yv & -> & Hd & Hm & Hy & Id & Im & Iy & E & ->).
    rewrite <- (app_nil_r y).
    rewrite (format_regex_complete _ _ _ [] Hd Hm Hy).
    cbn [List.length Nat.eqb negb group_get Ascii.eqb Bool.eqb].
    rewrite Iy, Im, Id.
    apply check_date_fields_exists in E. now rewrite E.
Qed.

(** C3, as stated, fails: "1.2.2024" has a one-digit day and a one-digit
    month, so it is not of the shape DD.MM.YYYY, yet [Birthday] accepts it:
    the [%d] and [%m] of [strptime] do not ask for the leading zero. *)
Lemma Birthday_accepts_unpadded_day :
  ~ (is_ok (Birthday.__init__ (txt "1.2.2024")) = true ->
     spec_DD_MM_YYYY (txt "1.2.2024") = true).
Proof. intros H. specialize (H eq_refl). discriminate H. Qed.

(** C3, amended: [Birthday] construction either stores the text unchanged or
    fails with the ValueError "Invalid date format. Use DD.MM.YYYY"; it
    succeeds exactly when the text is a day, a dot, a month, a dot and a
    year, where the day is written with one or two characters (1-9; or 0 or
    a space followed by 1-9; or 1-2 followed by a decimal digit; or 3
    followed by 0-1), the month with one or two (1-9; or 0 followed by 1-9;
    or 1 followed by 0-2), the year with four decimal digits, and the three
    numbers denote an existing calendar date of the years 1 to 9999.  In
    particular "29.02.2023" is rejected and "29.02.2024" is accepted. *)
Theorem Birthday_init_spec (v : str) :
  (Birthday.__init__ v = Ok (mkField v)
   \/ Birthday.__init__ v
      = Raise (ValueError (txt "Invalid date format. Use DD.MM.YYYY")))
  /\ (Birthday.__init__ v = Ok (mkField v) <->
      exists d m y dv mv yv,
        v = d ++ cdot :: m ++ cdot :: y
        /\ is_day_text d = true /\ is_month_text m = true
        /\ is_year_text y = true
        /\ int d = Some dv /\ int m = Some mv /\ int y = Some yv
        /\ date_exists yv mv dv = true)
  /\ Birthday.__init__ (txt "29.02.2023")
     = Raise (ValueError (txt "Invalid date format. Use DD.MM.YYYY"))
  /\ Birthday.__init__ (txt "29.02.2024") = Ok (mkField (txt "29.02.2024")).
Proof.
  split; [|split; [|split; reflexivity]].
  - unfold Birthday.__init__. destruct (_strptime v); auto.
  - unfold Birthday.__init__. destruct (_strptime v) as [f|t] eqn:S.
    + split; [discriminate|].
      intros (d & m & y & dv & mv & yv & H).
      assert (E : _strptime v = inr (mkDatetime yv mv dv 0 0 0 0)).
      { apply strptime_accepts. exists d, m, y, dv, mv, yv. tauto. }
      congruence.
    + split; [intros _ | reflexivity].
      apply strptime_accepts in S
        as (d & m & y & dv & mv & yv & H1 & H2 & H3 & H4 & H5 & H6 & H7 & H8 & _).
      exists d, m, y, dv, mv, yv. tauto.
Qed.

Lemma Birthday_init_spec_witness :
  Birthday.__init__ (txt "01.02.2024") = Ok (mkField (txt "01.02.2024")).
Proof.
  apply (proj2 (proj1 (proj2 (Birthday_init_spec (txt "01.02.2024"))))).
  exists (txt "01"), (txt "02"), (txt "2024"), 1%Z, 2%Z, 2024%Z.
  repeat split; reflexivity.
Defined.

(** [int] reads every text the pattern lets through as a field. *)
Lemma ranges_disjoint_sound (t1 t2 : list (N * N)) (c : N) :
  ranges_disjoint t1 t2 = true ->
  in_ranges t1 c = true -> in_ranges t2 c = false.
Proof.
  unfold ranges_disjoint, in_ranges. intros D H1.
  apply existsb_exists in H1 as [r1 [I1 T1]].
  destruct (existsb _ t2) eqn:H2; [|reflexivity].
  apply existsb_exists in H2 as [r2 [I2 T2]].
  pose proof (proj1 (forallb_forall _ _) D r1 I1) as D1.
  pose proof (proj1 (forallb_forall _ _) D1 r2 I2) as D2.
  cbv beta in D2. bool_facts;
    match goal with
    | H : (_ <? _)%N = true |- _ => apply N.ltb_lt in H; lia
    end.
Qed.

Lemma decimal_not_space (c : N) :
  is_decimal_char c = true -> is_space_char c = false.
Proof. apply ranges_disjoint_sound. vm_compute. reflexivity. Qed.

Lemma ascii_digit_is_decimal (c : N) :
  (48 <= c)%N -> (c <= 57)%N -> is_decimal_char c = true.
Proof.
  intros L U. unfold is_decimal_char, in_ranges, decimal_ranges.
  cbn [existsb fst snd].
  apply N.leb_le in L, U. now rewrite L, U.
Qed.

Lemma strip_decimal (l : str) :
  forallb is_decimal_char l = true -> strip l = l.
Proof.
  intros F. pose proof (proj1 (forallb_forall _ _) F) as A.
  assert (NS : forall k : str,
             (forall c, In c k -> is_decimal_char c = true) -> lstrip k = k).
  { intros [|c k] Hk; [reflexivity|]. simpl.
    now rewrite (decimal_not_space c (Hk c (or_introl eq_refl))). }
  unfold strip. rewrite (NS l A).
  rewrite NS; [apply rev_involutive|].
  intros c Hc. apply A. now apply in_rev.
Qed.

Lemma int_decimal (l : str) :
  l <> [] -> forallb is_decimal_char l = true -> exists z, int l = Some z.
Proof.
  intros Hne F. unfold int. rewrite (strip_decimal l F), F.
  destruct l; [contradiction|]. cbn [List.length Nat.eqb negb andb]. eauto.
Qed.

Lemma date_fields_are_numbers (d m y : str) :
  is_day_text d = true -> is_month_text m = true -> is_year_text y = true ->
  exists dv mv yv, int d = Some dv /\ int m = Some mv /\ int y = Some yv.
Proof.
  intros Hd Hm Hy.
  assert (Dd : exists dv, int d = Some dv).
  { destruct d as [|a [|b [|? ?]]]; try discriminate Hd;
      unfold is_day_text, in_range, c0, c1, c2, c3, c9, cspace in Hd; bool_facts;
      try (apply int_decimal; [discriminate|]; cbn [forallb];
           rewrite ?ascii_digit_is_decimal by lia;
           repeat match goal with H : is_decimal_char _ = true |- _ => rewrite H end;
           reflexivity).
    subst a. unfold int, strip.
    assert (Sb : is_space_char b = false)
      by (apply decimal_not_space, ascii_digit_is_decimal; lia).
    change (lstrip [32%N; b]) with (lstrip [b]).
    cbn [lstrip rev app]. rewrite Sb. cbn [lstrip rev app]. rewrite Sb.
    cbn [rev app List.length Nat.eqb negb andb forallb].
    rewrite ascii_digit_is_decimal by lia. cbn [andb]. eauto. }
  assert (Dm : exists mv, int m = Some mv).
  { destruct m as [|a [|b [|? ?]]]; try discriminate Hm;
      unfold is_month_text, in_range, c0, c1, c2, c9 in Hm; bool_facts;
      apply int_decimal; try discriminate; cbn [forallb];
      rewrite ?ascii_digit_is_decimal by lia; reflexivity. }
  assert (Dy : exists yv, int y = Some yv).
  { destruct y as [|y1 [|y2 [|y3 [|y4 [|? ?]]]]]; try discriminate Hy.
    unfold is_year_text in Hy. bool_facts.
    apply int_decimal; [discriminate|]. cbn [forallb].
    repeat match goal with H : is_decimal_char _ = true |- _ => rewrite H end.
    reflexivity. }
  destruct Dd as [dv ?], Dm as [mv ?], Dy as [yv ?]. eauto 7.
Qed.

(** ** The pickle machine *)

Lemma pushes_nil : pushes [] [].
Proof. intros more stack. reflexivity. Qed.

Lemma pushes_app a xs b ys :
  pushes a xs -> pushes b ys -> pushes (a ++ b) (xs ++ ys).
Proof.
  intros Ha Hb more stack.
  rewrite <- app_assoc, Ha, Hb, map_app, rev_app_distr, <- app_assoc.
  reflexivity.
Qed.

Lemma pushes_concat (saved : list (list opcode)) (objss : list (list pyobj)) :
  Forall2 pushes saved objss -> pushes (List.concat saved) (List.concat objss).
Proof.
  induction 1 as [|a xs saved objss H _ IH]; simpl.
  - apply pushes_nil.
  - now apply pushes_app.
Qed.

Lemma pop_mark_pushed (objs above : list pyobj) (below : list item) :
  pop_mark (rev (List.map IObj objs) ++ IMark :: below) above
  = Some (objs ++ above, below).
Proof.
  revert above. induction objs as [|x objs IH] using rev_ind; intros above.
  - reflexivity.
  - rewrite map_app, rev_app_distr. simpl. rewrite IH, <- app_assoc.
    reflexivity.
Qed.

Lemma Forall2_firstn A B (R : A -> B -> Prop) n (l : list A) (l' : list B) :
  Forall2 R l l' -> Forall2 R (firstn n l) (firstn n l').
Proof.
  intros H. revert n. induction H; intros [|n]; simpl; constructor; auto.
Qed.

Lemma Forall2_skipn A B (R : A -> B -> Prop) n (l : list A) (l' : list B) :
  Forall2 R l l' -> Forall2 R (skipn n l) (skipn n l').
Proof.
  intros H. revert n. induction H; intros [|n]; simpl; auto.
Qed.

Lemma Forall2_same_length A B (R : A -> B -> Prop) (l : list A) (l' : list B) :
  Forall2 R l l' -> List.length l = List.length l'.
Proof. induction 1; simpl; congruence. Qed.

Lemma batchsize_positive : (1 <= _BATCHSIZE)%nat.
Proof. unfold _BATCHSIZE. lia. Qed.

(** One marked batch, run on a list or on a dict. *)
Lemma marked_appends_run tmp objss l0 more stack :
  Forall2 pushes tmp objss ->
  run (marked APPENDS tmp ++ more) (IObj (PList l0) :: stack)
  = run more (IObj (PList (l0 ++ List.concat objss)) :: stack).
Proof.
  intros H. unfold marked. cbn [app run step].
  rewrite <- app_assoc, (pushes_concat H). cbn [app run step].
  rewrite pop_mark_pushed, app_nil_r. reflexivity.
Qed.

Lemma list_batches_run fuel saved objss l0 more stack :
  Forall2 pushes saved objss -> (List.length saved <= fuel)%nat -> saved <> [] ->
  run (List.concat (List.map (marked APPENDS) (list_batches fuel saved)) ++ more)
    (IObj (PList l0) :: stack)
  = run more (IObj (PList (l0 ++ List.concat objss)) :: stack).
Proof.
  revert saved objss l0. induction fuel as [|fuel IH]; intros saved objss l0 F L N.
  - destruct saved; [contradiction | simpl in L; lia].
  - cbn [list_batches List.map List.concat]. rewrite <- app_assoc.
    rewrite (marked_appends_run _ _ _ (Forall2_firstn _BATCHSIZE F)).
    pose proof (Forall2_skipn _BATCHSIZE F) as Fs.
    rewrite <- (firstn_skipn _BATCHSIZE objss) at 2.
    rewrite concat_app, app_assoc.
    destruct (skipn _BATCHSIZE saved) as [|x rest] eqn:E.
    + apply Forall2_same_length in Fs. symmetry in Fs.
      apply length_zero_iff_nil in Fs. rewrite Fs.
      cbn [List.map List.concat app]. now rewrite app_nil_r.
    + rewrite <- E in *. apply IH; [exact Fs| |rewrite E; discriminate].
      rewrite length_skipn. pose proof batchsize_positive. lia.
Qed.

Lemma batch_list_exact_run (saved : list (list opcode)) (items l0 : list pyobj)
    more stack :
  Forall2 pushes saved (List.map (fun x => [x]) items) ->
  run (batch_list_exact saved ++ more) (IObj (PList l0) :: stack)
  = run more (IObj (PList (l0 ++ items)) :: stack).
Proof.
  intros F.
  assert (C : List.concat (List.map (fun x : pyobj => [x]) items) = items).
  { clear. induction items; simpl; congruence. }
  destruct saved as [|x [|y saved]].
  - inversion F as [E|]. destruct items; [|discriminate].
    now rewrite app_nil_r.
  - destruct items as [|o items]; [inversion F|]. cbn [List.map] in F.
    apply Forall2_cons_iff in F as [Hx Ht].
    destruct items; [|inversion Ht].
    cbn [batch_list_exact]. rewrite <- app_assoc, Hx. reflexivity.
  - unfold batch_list_exact.
    rewrite (list_batches_run l0 more stack F); [now rewrite C | lia | discriminate].
Qed.

Lemma dict_update_app (d a b : list (str * pyobj)) :
  dict_update d (a ++ b) = dict_update (dict_update d a) b.
Proof. apply fold_left_app. Qed.

Lemma set_items_key_values (items d : list (str * pyobj)) :
  set_items d (List.concat (List.map key_value items)) = Some (dict_update d items).
Proof.
  revert d. induction items as [|[k v] items IH]; intros d; [reflexivity|].
  cbn [List.map List.concat key_value app fst snd set_items]. apply IH.
Qed.

Lemma marked_setitems_run tmp items d0 more stack :
  Forall2 pushes tmp (List.map key_value items) ->
  run (marked SETITEMS tmp ++ more) (IObj (PDict d0) :: stack)
  = run more (IObj (PDict (dict_update d0 items)) :: stack).
Proof.
  intros H. unfold marked. cbn [app run step].
  rewrite <- app_assoc, (pushes_concat H). cbn [app run step].
  rewrite pop_mark_pushed, app_nil_r, set_items_key_values. reflexivity.
Qed.

Lemma dict_batches_run fuel saved items d0 more stack :
  Forall2 pushes saved (List.map key_value items) ->
  (List.length saved < fuel)%nat ->
  run (List.concat (List.map (marked SETITEMS) (dict_batches fuel saved)) ++ more)
    (IObj (PDict d0) :: stack)
  = run more (IObj (PDict (dict_update d0 items)) :: stack).
Proof.
  revert saved items d0. induction fuel as [|fuel IH]; intros saved items d0 F L.
  - lia.
  - cbn [dict_batches List.map List.concat]. rewrite <- app_assoc.
    pose proof (Forall2_firstn _BATCHSIZE F) as Ff.
    pose proof (Forall2_skipn _BATCHSIZE F) as Fs.
    rewrite firstn_map in Ff. rewrite skipn_map in Fs.
    rewrite marked_setitems_run with (items := firstn _BATCHSIZE items)
      by exact Ff.
    rewrite <- (firstn_skipn _BATCHSIZE items) at 2. rewrite dict_update_app.
    destruct (Nat.eqb (List.length (firstn _BATCHSIZE saved)) _BATCHSIZE) eqn:E.
    + apply Nat.eqb_eq in E. apply IH; [exact Fs|].
      rewrite length_skipn. rewrite length_firstn in E.
      pose proof batchsize_positive. lia.
    + apply Nat.eqb_neq in E. rewrite length_firstn in E.
      assert (S0 : skipn _BATCHSIZE items = []).
      { apply skipn_all2. pose proof (Forall2_same_length F) as Hl.
        rewrite length_map in Hl. lia. }
      rewrite S0. reflexivity.
Qed.

Lemma batch_dict_exact_run saved items d0 more stack :
  Forall2 pushes saved (List.map key_value items) ->
  run (batch_dict_exact saved ++ more) (IObj (PDict d0) :: stack)
  = run more (IObj (PDict (dict_update d0 items)) :: stack).
Proof.
  intros F. destruct saved as [|x [|y saved]].
  - inversion F as [E|]. destruct items; [|discriminate]. reflexivity.
  - destruct items as [|[k v] items]; [inversion F|]. cbn [List.map] in F.
    apply Forall2_cons_iff in F as [Hx Ht].
    destruct items; [|inversion Ht].
    cbn [batch_dict_exact]. rewrite <- app_assoc, Hx. reflexivity.
  - unfold batch_dict_exact. apply dict_batches_run; [exact F | lia].
Qed.

Lemma dict_set_fresh V (k : str) (v : V) (d : dict V) :
  ~ In k (dict_keys d) -> dict_set k v d = d ++ [(k, v)].
Proof.
  induction d as [|[k' v'] d IH]; simpl; [reflexivity|].
  intros H. destruct (str_eqb k' k) eqn:E.
  - apply str_eqb_eq in E. tauto.
  - rewrite IH; tauto.
Qed.

Lemma dict_update_fresh (items d : list (str * pyobj)) :
  NoDup (List.map fst (d ++ items)) -> dict_update d items = d ++ items.
Proof.
  revert d. induction items as [|[k v] items IH]; intros d H.
  - now rewrite app_nil_r.
  - cbn [dict_update fold_left fst snd].
    rewrite dict_set_fresh.
    + change (fold_left _ items ?x) with (dict_update x items).
      rewrite IH; rewrite <- app_assoc; [reflexivity | exact H].
    + rewrite map_app in H. apply NoDup_remove_2 in H.
      intros I. apply H. apply in_or_app. left. exact I.
Qed.

Lemma save_items_pushes (items : list (str * pyobj)) :
  Forall (fun kv => wf (snd kv) -> pushes (save (snd kv)) [snd kv]) items ->
  NoDup (List.map fst items) -> Forall (fun kv => wf (snd kv)) items ->
  pushes
    (EMPTY_DICT ::
     batch_dict_exact
       (List.map (fun kv => let '(k, v) := kv in BINUNICODE k :: save v) items))
    [PDict items].
Proof.
  intros IH ND W more stack. cbn [app run step].
  rewrite batch_dict_exact_run with (items := items).
  - rewrite (dict_update_fresh items []); [reflexivity | exact ND].
  - clear ND. induction items as [|[k v] items IHi]; cbn [List.map]; constructor.
    + apply (pushes_app (a := [BINUNICODE k]) (xs := [PStr k])).
      * intros more' stack'. reflexivity.
      * apply (Forall_inv IH), (Forall_inv W).
    + apply IHi; [exact (Forall_inv_tail IH) | exact (Forall_inv_tail W)].
Qed.

(** Running what [save] wrote for an object pushes that object. *)
Lemma save_pushes (o : pyobj) : wf o -> pushes (save o) [o].
Proof.
  induction o as [| text | items IH | items IH | m c state IH]
    using pyobj_induction; intros W.
  - intros more stack. reflexivity.
  - intros more stack. reflexivity.
  - inversion W as [| | ? Wi | |]; subst.
    intros more stack.
    change (save (PList items))
      with (EMPTY_LIST :: batch_list_exact (List.map save items)).
    cbn [app run step].
    rewrite batch_list_exact_run with (items := items); [reflexivity|].
    clear W. induction items as [|x items IHi]; cbn [List.map]; constructor.
    + apply (Forall_inv IH), (Forall_inv Wi).
    + apply IHi; [exact (Forall_inv_tail IH) | exact (Forall_inv_tail Wi)].
  - inversion W as [| | | ? ND Wi |]; subst.
    now apply save_items_pushes.
  - inversion W as [| | | | ? ? ? ND Wi]; subst.
    intros more stack.
    change (save (PInst m c state))
      with ([BINUNICODE m; BINUNICODE c; STACK_GLOBAL; EMPTY_TUPLE; NEWOBJ]
            ++ match state with
               | [] => []
               | _ =>
                   (EMPTY_DICT ::
                    batch_dict_exact
                      (List.map
                         (fun kv => let '(k, v) := kv in BINUNICODE k :: save v)
                         state)) ++ [BUILD]
               end).
    rewrite <- (app_assoc _ _ more). cbn [app run step].
    destruct state as [|kv state]; [reflexivity|].
    pose proof (save_items_pushes IH ND Wi (BUILD :: more)
                  (IObj (PInst m c []) :: stack)) as P.
    cbn [app] in P. cbn [app]. rewrite <- app_assoc. cbn [app].
    rewrite P. cbn [app rev List.map run step].
    rewrite (dict_update_fresh (kv :: state) []); [reflexivity | exact ND].
Qed.

(** [pickle.load] gives back the object [pickle.dump] wrote. *)
Lemma load_dump (o : pyobj) : wf o -> load (dump o) = Ok o.
Proof.
  intros W. unfold load, dump. rewrite (save_pushes W). reflexivity.
Qed.

(** ** The book as an object *)

Lemma field_of_field_obj (class_name : str) (f : Field) :
  field_of_obj class_name (field_obj class_name f) = Some f.
Proof.
  destruct f as [v]. unfold field_of_obj, field_obj.
  rewrite !str_eqb_refl. reflexivity.
Qed.

Lemma map_option_inverse A B (f : A -> B) (g : B -> option A) (xs : list A) :
  (forall x, g (f x) = Some x) -> map_option g (List.map f xs) = Some xs.
Proof.
  intros H. induction xs as [|x xs IH]; simpl; [reflexivity|].
  now rewrite H, IH.
Qed.

Lemma Record_of_to_obj (r : Record.t) : Record.of_obj (Record.to_obj r) = Some r.
Proof.
  destruct r as [n ps b]. unfold Record.of_obj, Record.to_obj.
  rewrite !str_eqb_refl.
  cbn [andb dict_get Record.name Record.phones Record.birthday].
  change (str_eqb (txt "name") (txt "name")) with true.
  change (str_eqb (txt "name") (txt "phones")) with false.
  change (str_eqb (txt "phones") (txt "phones")) with true.
  change (str_eqb (txt "name") (txt "birthday")) with false.
  change (str_eqb (txt "phones") (txt "birthday")) with false.
  change (str_eqb (txt "birthday") (txt "birthday")) with true.
  cbv iota. rewrite field_of_field_obj.
  rewrite (map_option_inverse _ _ ps (field_of_field_obj (txt "Phone"))).
  destruct b as [b|]; [|reflexivity].
  change (match field_obj (txt "Birthday") b with
          | PNone => Some None
          | _ => option_map Some
                   (field_of_obj (txt "Birthday") (field_obj (txt "Birthday") b))
          end)
    with (option_map Some
            (field_of_obj (txt "Birthday") (field_obj (txt "Birthday") b))).
  rewrite field_of_field_obj. reflexivity.
Qed.

Lemma AddressBook_of_to_obj (book : AddressBook.t) :
  AddressBook.of_obj (AddressBook.to_obj book) = Some book.
Proof.
  destruct book as [rs]. unfold AddressBook.of_obj, AddressBook.to_obj.
  rewrite !str_eqb_refl. cbn [andb dict_get AddressBook.records].
  change (str_eqb (txt "records") (txt "records")) with true. cbv iota.
  rewrite map_option_inverse; [reflexivity|].
  intros [k r]. cbn [fst snd]. now rewrite Record_of_to_obj.
Qed.

Lemma NoDup_three (a b c : str) :
  a <> b -> a <> c -> b <> c -> NoDup [a; b; c].
Proof.
  intros. repeat constructor; simpl; intuition congruence.
Qed.

Lemma field_obj_wf (class_name : str) (f : Field) : wf (field_obj class_name f).
Proof.
  apply wf_inst; simpl.
  - repeat constructor. simpl. tauto.
  - apply Forall_cons; [apply wf_str | apply Forall_nil].
Qed.

Lemma Record_to_obj_wf (r : Record.t) : wf (Record.to_obj r).
Proof.
  apply wf_inst.
  - apply NoDup_three; discriminate.
  - apply Forall_cons; [|apply Forall_cons; [|apply Forall_cons; [|apply Forall_nil]]];
      cbn [snd].
    + apply field_obj_wf.
    + apply wf_list. induction (Record.phones r); simpl; constructor;
        auto using field_obj_wf.
    + destruct (Record.birthday r); [apply field_obj_wf | constructor].
Qed.

Lemma AddressBook_to_obj_wf (book : AddressBook.t) :
  NoDup (dict_keys (AddressBook.records book)) -> wf (AddressBook.to_obj book).
Proof.
  intros ND. apply wf_inst.
  - repeat constructor. simpl. tauto.
  - apply Forall_cons; [|apply Forall_nil]. cbn [snd]. apply wf_dict.
    + rewrite map_map. exact ND.
    + apply Forall_forall. intros kv H. apply in_map_iff in H as [[k r] [<- _]].
      apply Record_to_obj_wf.
Qed.

Lemma open_after_write (filename : str) (content : list opcode) (fs : filesystem) :
  open_rb filename (write_wb filename content fs) = Ok content.
Proof. unfold open_rb, write_wb. now rewrite dict_get_set_same. Qed.

(** C1: a book saved to a path and loaded from that path again is the book
    that was saved: the same names in the same order, each with the same
    record, that is the same phones in the same order and the same birthday
    or none.  (A book is a dict: no name is a key twice.) *)
Theorem save_then_load (book : AddressBook.t) (filename : str) (fs : filesystem) :
  NoDup (dict_keys (AddressBook.records book)) ->
  AddressBook.load_from_file filename
    (AddressBook.save_to_file book filename fs) = Ok book
  /\ forall book',
       AddressBook.load_from_file filename
         (AddressBook.save_to_file book filename fs) = Ok book' ->
       dict_keys (AddressBook.records book')
         = dict_keys (AddressBook.records book)
       /\ forall name,
            AddressBook.find book' name = AddressBook.find book name.
Proof.
  intros ND.
  assert (E : AddressBook.load_from_file filename
                (AddressBook.save_to_file book filename fs) = Ok book).
  { unfold AddressBook.load_from_file, AddressBook.save_to_file.
    rewrite open_after_write, (load_dump (AddressBook_to_obj_wf book ND)).
    now rewrite AddressBook_of_to_obj. }
  split; [exact E|].
  intros book' E'. rewrite E in E'. injection E' as <-. auto.
Qed.

Lemma save_then_load_witness :
  AddressBook.load_from_file (txt "address_book.pkl")
    (AddressBook.save_to_file book_two (txt "address_book.pkl") [])
  = Ok book_two.
Proof.
  apply (save_then_load book_two (txt "address_book.pkl") []).
  unfold book_two, dict_keys. cbn [AddressBook.records List.map fst].
  repeat constructor; simpl; intuition discriminate.
Defined.

(** C8: loading from a path at which no file exists gives a new, empty
    book and no error. *)
Theorem load_missing_file (filename : str) (fs : filesystem) :
  dict_get filename fs = None ->
  AddressBook.load_from_file filename fs = Ok AddressBook.__init__
  /\ AddressBook.get_all_records AddressBook.__init__ = [].
Proof.
  intros H. unfold AddressBook.load_from_file, open_rb. rewrite H.
  split; reflexivity.
Qed.

Lemma load_missing_file_witness :
  AddressBook.load_from_file (txt "address_book.pkl") []
  = Ok AddressBook.__init__.
Proof.
  apply (load_missing_file (txt "address_book.pkl") []). reflexivity.
Defined.

(** * More of the program *)

(** ** Dicts, continued *)

Lemma dict_get_none_keys V (k : str) (d : dict V) :
  dict_get k d = None <-> ~ In k (dict_keys d).
Proof.
  induction d as [|[k' v] d IH]; simpl; [tauto|].
  destruct (str_eqb k' k) eqn:E.
  - apply str_eqb_eq in E. split; [discriminate | tauto].
  - apply str_eqb_neq in E. rewrite IH. tauto.
Qed.

Lemma dict_get_in V (k : str) (v : V) (d : dict V) :
  dict_get k d = Some v -> In (k, v) d.
Proof.
  induction d as [|[k' v'] d IH]; simpl; [discriminate|].
  destruct (str_eqb k' k) eqn:E.
  - apply str_eqb_eq in E. intros H. injection H as <-. subst. now left.
  - intros H. right. now apply IH.
Qed.

Lemma dict_set_in V (k k0 : str) (v v0 : V) (d : dict V) :
  In (k, v) (dict_set k0 v0 d) -> (k = k0 /\ v = v0) \/ In (k, v) d.
Proof.
  induction d as [|[k' v'] d IH]; simpl.
  - intros [H|[]]. injection H as <- <-. auto.
  - destruct (str_eqb k' k0) eqn:E; simpl.
    + apply str_eqb_eq in E. subst k'. intros [H|H]; [|auto].
      injection H as <- <-. auto.
    + intros [H|H]; [auto|]. destruct (IH H); auto.
Qed.

Lemma dict_set_keys V (k : str) (v : V) (d : dict V) :
  dict_keys (dict_set k v d)
  = match dict_get k d with
    | Some _ => dict_keys d
    | None => dict_keys d ++ [k]
    end.
Proof.
  induction d as [|[k' v'] d IH]; simpl; [reflexivity|].
  destruct (str_eqb k' k) eqn:E; simpl; [reflexivity|].
  rewrite IH. destruct (dict_get k d); reflexivity.
Qed.

Lemma dict_set_keys_nodup V (k : str) (v : V) (d : dict V) :
  NoDup (dict_keys d) -> NoDup (dict_keys (dict_set k v d)).
Proof.
  intros ND. rewrite dict_set_keys. destruct (dict_get k d) eqn:G; [exact ND|].
  apply dict_get_none_keys in G.
  apply NoDup_app; [exact ND | repeat constructor; simpl; tauto |].
  intros x Hx [<-|[]]. contradiction.
Qed.

Lemma dict_set_absent_last V (k : str) (v v0 : V) (d : dict V) :
  dict_get k d = None -> dict_set k v (d ++ [(k, v0)]) = d ++ [(k, v)].
Proof.
  induction d as [|[k' v'] d IH]; simpl.
  - now rewrite str_eqb_refl.
  - destruct (str_eqb k' k); [discriminate|]. intros H. now rewrite IH.
Qed.

(** ** The commands, continued *)

(** X1: [add_contact] with a name the book does not hold and a phone that
    [Phone] accepts answers "Contact added." and puts a record with that
    name, that one phone and no birthday after the records the book held,
    which stay as they were. *)
Theorem add_contact_new_name (book : AddressBook.t) (name phone : str)
    (rest : list str) (p : Field) :
  AddressBook.find book name = None ->
  Phone.__init__ phone = Ok p ->
  add_contact (name :: phone :: rest) book
  = (txt "Contact added.",
     AddressBook.mk
       (AddressBook.records book
        ++ [(name, Record.mk (mkField name) [mkField phone] None)])).
Proof.
  intros F P. destruct (Phone_ok_truthy _ P) as [T ->].
  unfold add_contact, input_error, add_contact_body, Record.add_phone,
    Record.__init__.
  rewrite F, T, P. cbn [Record.name Record.phones Record.birthday app].
  unfold AddressBook.mutated, AddressBook.add_record.
  cbn [AddressBook.records Record.name value].
  unfold AddressBook.find in F.
  rewrite dict_set_fresh with (d := AddressBook.records book)
    by (apply dict_get_none_keys; exact F).
  rewrite dict_set_absent_last by exact F. reflexivity.
Qed.

Lemma add_contact_new_name_witness :
  add_contact [txt "Bob"; txt "0671112233"] book_anna
  = (txt "Contact added.",
     AddressBook.mk
       [(txt "Anna", anna);
        (txt "Bob", Record.mk (mkField (txt "Bob")) [mkField (txt "0671112233")] None)]).
Proof.
  apply (add_contact_new_name book_anna (txt "Bob") (txt "0671112233") []
           (p := mkField (txt "0671112233"))); reflexivity.
Defined.

(** X2: a command given fewer arguments than it unpacks answers with the
    text of the ValueError of the unpacking, which tells how many values
    were expected and how many came, and leaves the book as it was. *)
Theorem too_few_arguments (args : list str) (book : AddressBook.t) :
  ((List.length args < 2)%nat ->
   add_contact args book = (exn_str (unpack_error 2 args), book)
   /\ add_birthday args book = (exn_str (unpack_error 2 args), book))
  /\ ((List.length args < 3)%nat ->
      change_contact args book = (exn_str (unpack_error 3 args), book))
  /\ ((List.length args < 1)%nat ->
      show_birthday args book = (exn_str (unpack_error 1 args), book)
      /\ find_contact args book = (exn_str (unpack_error 1 args), book)).
Proof.
  split; [|split]; intros L;
    destruct args as [|a [|b [|c args]]]; simpl in L; try lia;
    try (split; reflexivity); reflexivity.
Qed.

Lemma too_few_arguments_witness :
  add_contact [txt "Bob"] book_anna
  = (txt "not enough values to unpack (expected at least 2, got 1)", book_anna).
Proof.
  apply (proj1 (proj1 (too_few_arguments [txt "Bob"] book_anna)
                  ltac:(simpl; lia))).
Defined.

Lemma Birthday_ok_value (date : str) (b : Field) :
  Birthday.__init__ date = Ok b -> b = mkField date.
Proof.
  unfold Birthday.__init__. destruct (_strptime date); [discriminate|].
  intros H. now injection H.
Qed.

Lemma Birthday_raise_message (date : str) (e : exn) :
  Birthday.__init__ date = Raise e ->
  e = ValueError (txt "Invalid date format. Use DD.MM.YYYY").
Proof.
  unfold Birthday.__init__. destruct (_strptime date); [|discriminate].
  intros H. now injection H.
Qed.

(** X3: [add_birthday] for a name the book holds and a date [Birthday]
    accepts answers "Birthday added for <name>." and sets the record's
    birthday to that date, in place of any earlier one; the record keeps
    its name and phones, and the other records and the order of the names
    stay. *)
Theorem add_birthday_sets (book : AddressBook.t) (name date : str)
    (rest : list str) (record : Record.t) (b : Field) :
  AddressBook.find book name = Some record ->
  Birthday.__init__ date = Ok b ->
  exists book',
    add_birthday (name :: date :: rest) book
    = (txt "Birthday added for " ++ name ++ txt ".", book')
    /\ AddressBook.find book' name
       = Some (Record.mk (Record.name record) (Record.phones record)
                 (Some (mkField date)))
    /\ dict_keys (AddressBook.records book')
       = dict_keys (AddressBook.records book)
    /\ forall k, k <> name ->
         AddressBook.find book' k = AddressBook.find book k.
Proof.
  intros F B. pose proof (Birthday_ok_value _ B) as ->.
  eexists. unfold add_birthday, input_error, add_birthday_body,
    Record.add_birthday. rewrite F, B.
  split; [reflexivity|]. split; [apply find_mutated_same|]. split.
  - apply dict_keys_set_present with (v0 := record). exact F.
  - intros k Hk. apply find_mutated_other. congruence.
Qed.

Lemma add_birthday_sets_witness :
  exists book',
    add_birthday [txt "Anna"; txt "29.02.2024"] book_anna_1990
    = (txt "Birthday added for Anna.", book')
    /\ AddressBook.find book' (txt "Anna")
       = Some (Record.mk (mkField (txt "Anna")) [mkField (txt "0501234567")]
                 (Some (mkField (txt "29.02.2024")))).
Proof.
  destruct (add_birthday_sets book_anna_1990 (txt "Anna") (txt "29.02.2024") []
              (record := anna_born_1990) (b := mkField (txt "29.02.2024"))
              eq_refl eq_refl) as [book' [H1 [H2 _]]].
  exists book'. split; [exact H1 | exact H2].
Defined.

(** X4: [add_birthday] for a name the book does not hold answers "Contact
    not found.", whatever the date; for a name it holds and a date
    [Birthday] refuses it answers "Invalid date format. Use DD.MM.YYYY".
    In both cases the book stays as it was. *)
Theorem add_birthday_refused (book : AddressBook.t) (name date : str)
    (rest : list str) :
  (AddressBook.find book name = None ->
   add_birthday (name :: date :: rest) book = (txt "Contact not found.", book))
  /\ (forall record e,
        AddressBook.find book name = Some record ->
        Birthday.__init__ date = Raise e ->
        add_birthday (name :: date :: rest) book
        = (txt "Invalid date format. Use DD.MM.YYYY", book)).
Proof.
  unfold add_birthday, input_error, add_birthday_body, Record.add_birthday.
  split.
  - intros F. now rewrite F.
  - intros record e F B. rewrite F, B.
    now rewrite (Birthday_raise_message _ B).
Qed.

Lemma add_birthday_refused_witness :
  add_birthday [txt "Bob"; txt "01.01.2000"] book_anna
  = (txt "Contact not found.", book_anna)
  /\ add_birthday [txt "Anna"; txt "31.04.2024"] book_anna
     = (txt "Invalid date format. Use DD.MM.YYYY", book_anna).
Proof.
  split.
  - apply (proj1 (add_birthday_refused book_anna (txt "Bob") (txt "01.01.2000") [])).
    reflexivity.
  - apply (proj2 (add_birthday_refused book_anna (txt "Anna") (txt "31.04.2024") [])
             anna (ValueError (txt "Invalid date format. Use DD.MM.YYYY")));
      reflexivity.
Defined.

(** X6: the commands that only look things up, [show_birthday],
    [find_contact] and [birthdays], leave the book as it was, whatever
    their arguments and whether they succeed or not. *)
Theorem lookups_keep_book (repr : str -> str) (today : datetime)
    (args : list str) (book : AddressBook.t) :
  snd (show_birthday args book) = book
  /\ snd (find_contact args book) = book
  /\ snd (birthdays repr today args book) = book.
Proof.
  repeat split.
  - unfold show_birthday, input_error, show_birthday_body.
    destruct args as [|name args]; [reflexivity|].
    destruct (AddressBook.find book name) as [r|]; [|reflexivity].
    destruct (Record.birthday r); reflexivity.
  - unfold find_contact, input_error, find_contact_body.
    destruct args as [|name args]; [reflexivity|].
    destruct (AddressBook.find book name); reflexivity.
  - unfold birthdays, input_error, birthdays_body.
    destruct (datetime_add today (mkTimedelta 7 0 0)); [|reflexivity].
    destruct (upcoming repr today a (AddressBook.get_all_records book));
      reflexivity.
Qed.

(** ** What the commands keep *)

Lemma dict_set_all V (Q : V -> Prop) (k0 : str) (v0 : V) (d : dict V) :
  (forall k v, In (k, v) d -> Q v) -> Q v0 ->
  forall k v, In (k, v) (dict_set k0 v0 d) -> Q v.
Proof.
  intros A Q0 k v H. destruct (dict_set_in _ _ _ _ _ H) as [[_ ->]|H']; eauto.
Qed.

Lemma book_ok_set (book : AddressBook.t) (k : str) (r : Record.t) :
  book_ok book -> value (Record.name r) = k ->
  book_ok (AddressBook.mk (dict_set k r (AddressBook.records book))).
Proof.
  intros [ND KN] E. split; cbn [AddressBook.records].
  - now apply dict_set_keys_nodup.
  - intros k' r' H. destruct (dict_set_in _ _ _ _ _ H) as [[-> ->]|H']; auto.
Qed.

Lemma book_ok_find (book : AddressBook.t) (k : str) (r : Record.t) :
  book_ok book -> AddressBook.find book k = Some r -> value (Record.name r) = k.
Proof. intros [_ KN] F. apply KN. now apply dict_get_in. Qed.

Lemma change_first_in (old_phone new_phone : str) (phones phones' : list Field)
    (p : Field) :
  change_first old_phone new_phone phones = Some phones' ->
  In p phones' -> p = mkField new_phone \/ In p phones.
Proof.
  revert phones'. induction phones as [|q more IH]; simpl; [discriminate|].
  intros phones'. destruct (str_eqb (value q) old_phone).
  - intros H. injection H as <-. intros [<-|I]; auto.
  - destruct (change_first old_phone new_phone more) as [more'|]; [|discriminate].
    intros H. injection H as <-. intros [<-|I]; [auto|].
    destruct (IH more' eq_refl I); auto.
Qed.

(** X7: a book in which no name is a key twice and every record sits under
    its own name is still such a book after [add_contact],
    [change_contact] or [add_birthday], whatever their arguments and
    whether they succeed or not. *)
Theorem commands_keep_book_ok (args : list str) (book : AddressBook.t) :
  book_ok book ->
  book_ok (snd (add_contact args book))
  /\ book_ok (snd (change_contact args book))
  /\ book_ok (snd (add_birthday args book)).
Proof.
  intros OK. split; [|split].
  - unfold add_contact, input_error, add_contact_body.
    destruct args as [|name [|phone rest]]; try exact OK.
    destruct (AddressBook.find book name) as [record|] eqn:F.
    + destruct (truthy phone); [|exact OK].
      unfold Record.add_phone. destruct (Phone.__init__ phone); [|exact OK].
      cbn [snd]. apply book_ok_set; [exact OK|]. cbn [Record.name].
      exact (book_ok_find _ OK F).
    + cbn [Record.__init__].
      assert (OK1 : book_ok (AddressBook.add_record book
                               (Record.mk (mkField name) [] None))).
      { now apply book_ok_set. }
      destruct (truthy phone); [|exact OK1].
      unfold Record.add_phone. destruct (Phone.__init__ phone); [|exact OK1].
      cbn [snd]. now apply book_ok_set.
  - unfold change_contact, input_error, change_contact_body.
    destruct args as [|name [|old_phone [|new_phone rest]]]; try exact OK.
    destruct (AddressBook.find book name) as [record|] eqn:F; [|exact OK].
    destruct (change_first old_phone new_phone (Record.phones record));
      [|exact OK].
    cbn [snd]. apply book_ok_set; [exact OK|]. cbn [Record.name].
    exact (book_ok_find _ OK F).
  - unfold add_birthday, input_error, add_birthday_body.
    destruct args as [|name [|date rest]]; try exact OK.
    destruct (AddressBook.find book name) as [record|] eqn:F; [|exact OK].
    unfold Record.add_birthday. destruct (Birthday.__init__ date); [|exact OK].
    cbn [snd]. apply book_ok_set; [exact OK|]. cbn [Record.name].
    exact (book_ok_find _ OK F).
Qed.

Lemma book_anna_ok : book_ok book_anna.
Proof.
  split.
  - repeat constructor. simpl. tauto.
  - intros k r [H|[]]. injection H as <- <-. reflexivity.
Qed.

Lemma commands_keep_book_ok_witness :
  book_ok (snd (add_contact [txt "Bob"; txt "0671112233"] book_anna)).
Proof.
  apply (proj1 (commands_keep_book_ok [txt "Bob"; txt "0671112233"] book_anna_ok)).
Defined.

Lemma Phone_ok_again (phone : str) (p : Field) :
  Phone.__init__ phone = Ok p -> Phone.__init__ (value p) = Ok p.
Proof. intros H. now destruct (Phone_ok_truthy _ H) as [_ ->]. Qed.

Lemma Birthday_ok_again (date : str) (b : Field) :
  Birthday.__init__ date = Ok b -> Birthday.__init__ (value b) = Ok b.
Proof. intros H. pose proof (Birthday_ok_value _ H) as ->. exact H. Qed.

(** X8: the fields of the book stay valid.  If every stored birthday is a
    text [Birthday] accepts, this is still so after [add_contact],
    [change_contact] or [add_birthday]; if every stored phone is a text
    [Phone] accepts, this is still so after [add_contact] and
    [add_birthday], and after [change_contact] when the new phone is one
    [Phone] accepts. *)
Theorem stored_fields_stay_valid (args : list str) (book : AddressBook.t) :
  (birthdays_valid book ->
   birthdays_valid (snd (add_contact args book))
   /\ birthdays_valid (snd (change_contact args book))
   /\ birthdays_valid (snd (add_birthday args book)))
  /\ (phones_valid book ->
      phones_valid (snd (add_contact args book))
      /\ phones_valid (snd (add_birthday args book))
      /\ forall name old_phone new_phone rest,
           args = name :: old_phone :: new_phone :: rest ->
           is_ok (Phone.__init__ new_phone) = true ->
           phones_valid (snd (change_contact args book))).
Proof.
  split.
  - intros BV. split; [|split].
    + unfold add_contact, input_error, add_contact_body.
      destruct args as [|name [|phone rest]]; try exact BV.
      destruct (AddressBook.find book name) as [record|] eqn:F.
      * destruct (truthy phone); [|exact BV].
        unfold Record.add_phone. destruct (Phone.__init__ phone); [|exact BV].
        cbn [snd]. intros k r b. unfold AddressBook.mutated.
        cbn [AddressBook.records]. revert k r.
        apply (@dict_set_all _ (fun r : Record.t => Record.birthday r = Some b -> Birthday.__init__ (value b) = Ok b));
        [exact (fun k r H => BV k r b H)|].
        cbn [Record.birthday]. apply (BV name record b). now apply dict_get_in.
      * cbn [Record.__init__].
        assert (BV1 : birthdays_valid
                        (AddressBook.add_record book
                           (Record.mk (mkField name) [] None))).
        { intros k r b. unfold AddressBook.add_record.
          cbn [AddressBook.records]. revert k r.
          apply (@dict_set_all _ (fun r : Record.t => Record.birthday r = Some b -> Birthday.__init__ (value b) = Ok b));
        [exact (fun k r H => BV k r b H)|].
          discriminate. }
        destruct (truthy phone); [|exact BV1].
        unfold Record.add_phone. destruct (Phone.__init__ phone); [|exact BV1].
        cbn [snd]. intros k r b. unfold AddressBook.mutated.
        cbn [AddressBook.records]. revert k r.
        apply (@dict_set_all _ (fun r : Record.t => Record.birthday r = Some b -> Birthday.__init__ (value b) = Ok b));
        [exact (fun k r H => BV1 k r b H)|].
        discriminate.
    + unfold change_contact, input_error, change_contact_body.
      destruct args as [|name [|old_phone [|new_phone rest]]]; try exact BV.
      destruct (AddressBook.find book name) as [record|] eqn:F; [|exact BV].
      destruct (change_first old_phone new_phone (Record.phones record));
        [|exact BV].
      cbn [snd]. intros k r b. unfold AddressBook.mutated.
      cbn [AddressBook.records]. revert k r.
      apply (@dict_set_all _ (fun r : Record.t => Record.birthday r = Some b -> Birthday.__init__ (value b) = Ok b));
        [exact (fun k r H => BV k r b H)|].
      cbn [Record.birthday]. apply (BV name record b). now apply dict_get_in.
    + unfold add_birthday, input_error, add_birthday_body.
      destruct args as [|name [|date rest]]; try exact BV.
      destruct (AddressBook.find book name) as [record|] eqn:F; [|exact BV].
      unfold Record.add_birthday.
      destruct (Birthday.__init__ date) as [f|e] eqn:B; [|exact BV].
      cbn [snd]. intros k r b. unfold AddressBook.mutated.
      cbn [AddressBook.records]. revert k r.
      apply (@dict_set_all _ (fun r : Record.t => Record.birthday r = Some b -> Birthday.__init__ (value b) = Ok b));
        [exact (fun k r H => BV k r b H)|].
      cbn [Record.birthday]. intros H. injection H as <-.
      now apply Birthday_ok_again with (date := date).
  - intros PV. split; [|split].
    + unfold add_contact, input_error, add_contact_body.
      destruct args as [|name [|phone rest]]; try exact PV.
      destruct (AddressBook.find book name) as [record|] eqn:F.
      * destruct (truthy phone); [|exact PV].
        unfold Record.add_phone.
        destruct (Phone.__init__ phone) as [f|e] eqn:P; [|exact PV].
        cbn [snd]. intros k r p. unfold AddressBook.mutated.
        cbn [AddressBook.records]. revert k r.
        apply (@dict_set_all _ (fun r : Record.t => In p (Record.phones r) -> Phone.__init__ (value p) = Ok p));
        [exact (fun k r H => PV k r p H)|].
        cbn [Record.phones]. intros I. apply in_app_or in I as [I|[<-|[]]].
        -- apply (PV name record p); [now apply dict_get_in | exact I].
        -- now apply Phone_ok_again with (phone := phone).
      * cbn [Record.__init__].
        assert (PV1 : phones_valid
                        (AddressBook.add_record book
                           (Record.mk (mkField name) [] None))).
        { intros k r p. unfold AddressBook.add_record.
          cbn [AddressBook.records]. revert k r.
          apply (@dict_set_all _ (fun r : Record.t => In p (Record.phones r) -> Phone.__init__ (value p) = Ok p));
        [exact (fun k r H => PV k r p H)|].
          intros []. }
        destruct (truthy phone); [|exact PV1].
        unfold Record.add_phone.
        destruct (Phone.__init__ phone) as [f|e] eqn:P; [|exact PV1].
        cbn [snd]. intros k r p. unfold AddressBook.mutated.
        cbn [AddressBook.records]. revert k r.
        apply (@dict_set_all _ (fun r : Record.t => In p (Record.phones r) -> Phone.__init__ (value p) = Ok p));
        [exact (fun k r H => PV1 k r p H)|].
        cbn [Record.phones app]. intros [<-|[]].
        now apply Phone_ok_again with (phone := phone).
    + unfold add_birthday, input_error, add_birthday_body.
      destruct args as [|name [|date rest]]; try exact PV.
      destruct (AddressBook.find book name) as [record|] eqn:F; [|exact PV].
      unfold Record.add_birthday.
      destruct (Birthday.__init__ date) as [f|e] eqn:B; [|exact PV].
      cbn [snd]. intros k r p. unfold AddressBook.mutated.
      cbn [AddressBook.records]. revert k r.
      apply (@dict_set_all _ (fun r : Record.t => In p (Record.phones r) -> Phone.__init__ (value p) = Ok p));
        [exact (fun k r H => PV k r p H)|].
      cbn [Record.phones]. apply (PV name record p). now apply dict_get_in.
    + intros name old_phone new_phone rest -> NP.
      unfold change_contact, input_error, change_contact_body.
      destruct (AddressBook.find book name) as [record|] eqn:F; [|exact PV].
      destruct (change_first old_phone new_phone (Record.phones record))
        as [phones'|] eqn:C; [|exact PV].
      cbn [snd]. intros k r p. unfold AddressBook.mutated.
      cbn [AddressBook.records]. revert k r.
      apply (@dict_set_all _ (fun r : Record.t => In p (Record.phones r) -> Phone.__init__ (value p) = Ok p));
        [exact (fun k r H => PV k r p H)|].
      cbn [Record.phones]. intros I.
      destruct (change_first_in _ _ _ p C I) as [->|I'].
      * destruct (Phone.__init__ new_phone) as [f|e] eqn:P; [|discriminate NP].
        cbn [value]. now destruct (Phone_ok_truthy _ P) as [_ ->].
      * apply (PV name record p); [now apply dict_get_in | exact I'].
Qed.

Lemma book_anna_1990_birthdays_valid : birthdays_valid book_anna_1990.
Proof.
  intros k r b [H|[]]. injection H as <- <-.
  intros E. injection E as <-. reflexivity.
Qed.

Lemma stored_fields_stay_valid_witness :
  birthdays_valid
    (snd (add_birthday [txt "Anna"; txt "29.02.2024"] book_anna_1990)).
Proof.
  apply (proj2 (proj2 (proj1 (stored_fields_stay_valid
                                [txt "Anna"; txt "29.02.2024"] book_anna_1990)
                         book_anna_1990_birthdays_valid))).
Defined.

(** ** Upcoming birthdays *)

Lemma keep_is_due (repr : str -> str) (today next_week : datetime)
    (r : Record.t) :
  (forall b, Record.birthday r = Some b -> Birthday.__init__ (value b) = Ok b) ->
  match Record.birthday r with
  | None => Ok false
  | Some b =>
      match strptime repr (value b) with
      | Ok date => Ok (datetime_le today date && datetime_le date next_week)
      | Raise e => Raise e
      end
  end = Ok (due today next_week r).
Proof.
  intros V. unfold due. destruct (Record.birthday r) as [b|]; [|reflexivity].
  specialize (V b eq_refl). unfold Birthday.__init__ in V. unfold strptime.
  destruct (_strptime (value b)); [discriminate | reflexivity].
Qed.

Lemma upcoming_filter (repr : str -> str) (today next_week : datetime)
    (rs : list Record.t) :
  (forall r b, In r rs -> Record.birthday r = Some b ->
     Birthday.__init__ (value b) = Ok b) ->
  upcoming repr today next_week rs
  = Ok (List.map (fun r => value (Record.name r))
          (filter (due today next_week) rs)).
Proof.
  induction rs as [|r rs IH]; intros V; [reflexivity|].
  cbn [upcoming filter].
  rewrite keep_is_due by (intros b; apply V; now left).
  rewrite IH by (intros r' b' I; apply V; now right).
  destruct (due today next_week r); reflexivity.
Qed.

(** X9: when every stored birthday is a text [Birthday] accepts and the
    day a week from now exists, [birthdays] never answers with an error:
    it lists, in the order of the book, exactly the names of the records
    whose birthday, read as the full date it was entered with, lies
    between now and a week from now, both ends included, or says that
    there are none. *)
Theorem birthdays_lists_due (repr : str -> str) (today next_week : datetime)
    (args : list str) (book : AddressBook.t) :
  birthdays_valid book ->
  datetime_add today (mkTimedelta 7 0 0) = Ok next_week ->
  birthdays repr today args book
  = (match List.map (fun r => value (Record.name r))
             (filter (due today next_week) (AddressBook.get_all_records book))
     with
     | [] => txt "No birthdays in the next week."
     | names => txt "Upcoming birthdays: " ++ join (txt ", ") names
     end, book).
Proof.
  intros V A. unfold birthdays, input_error, birthdays_body. rewrite A.
  rewrite upcoming_filter;
    [destruct (List.map _ (filter _ _)); reflexivity|].
  intros r b I B. unfold AddressBook.get_all_records, dict_values in I.
  apply in_map_iff in I as [[k r'] [E I]]. cbn [snd] in E. subst r'.
  exact (V k r b I B).
Qed.

Lemma birthdays_lists_due_witness :
  birthdays (fun a => a) (mkDatetime 1990 11 1 9 30 0 0) [] book_anna_1990
  = (txt "Upcoming birthdays: Anna", book_anna_1990).
Proof.
  apply (@birthdays_lists_due (fun a => a) (mkDatetime 1990 11 1 9 30 0 0)
           (mkDatetime 1990 11 8 9 30 0 0) [] book_anna_1990
           book_anna_1990_birthdays_valid).
  reflexivity.
Defined.

(** X10: in the last week of the year 9999 the day a week from now does not
    exist: [birthdays] answers "date value out of range", the text of the
    OverflowError of the addition, whatever the book holds. *)
Theorem birthdays_overflow (repr : str -> str) (today : datetime)
    (args : list str) (book : AddressBook.t) :
  time_in_range today ->
  (_MAXORDINAL < toordinal today + 7)%Z ->
  birthdays repr today args book = (txt "date value out of range", book).
Proof.
  intros (Hh & Hm & Hs & Hu) L.
  unfold birthdays, input_error, birthdays_body, datetime_add.
  cbn [days seconds microseconds].
  assert (U : ((microsecond today + 0) / 1000000 = 0)%Z)
    by (apply Z.div_small; lia).
  rewrite U.
  assert (S : ((hour today * 3600 + minute today * 60 + second today + 0 + 0)
               / 86400 = 0)%Z) by (apply Z.div_small; lia).
  rewrite S.
  assert (E : (toordinal today + 7 + 0 <=? _MAXORDINAL)%Z = false)
    by (apply Z.leb_gt; lia).
  rewrite E, andb_false_r. reflexivity.
Qed.

Lemma birthdays_overflow_witness :
  birthdays (fun a => a) late_9999 [] book_anna_1990
  = (txt "date value out of range", book_anna_1990).
Proof.
  apply birthdays_overflow.
  - unfold time_in_range, late_9999. cbn. lia.
  - vm_compute. reflexivity.
Defined.

(** ** Changing a phone *)

Lemma change_contact_found_witness :
  AddressBook.find
    (snd (change_contact [txt "Anna"; txt "0501234567"; txt "0509999999"]
            (AddressBook.mk [(txt "Anna", anna_two_phones)])))
    (txt "Anna")
  = Some (Record.mk (mkField (txt "Anna"))
            [mkField (txt "0670000000"); mkField (txt "0509999999");
             mkField (txt "0501234567")] None).
Proof.
  apply (@change_contact_found (AddressBook.mk [(txt "Anna", anna_two_phones)])
           (txt "Anna") (txt "0501234567") (txt "0509999999") []
           anna_two_phones [mkField (txt "0670000000")]
           [mkField (txt "0501234567")] (mkField (txt "0501234567")));
    try reflexivity.
  simpl. intros [H|[]]. discriminate H.
Defined.

Lemma change_contact_not_found_witness :
  change_contact [txt "Anna"; txt "0000000000"; txt "x"] book_anna
  = (txt "Old phone number not found.", book_anna).
Proof.
  apply (@change_contact_not_found book_anna (txt "Anna") (txt "0000000000")
           (txt "x") [] anna); [reflexivity|].
  simpl. intros [H|[]]. discriminate H.
Defined.

(** X13: [add_record] keeps the names of the book and their order when the
    record's name is one of them, and puts the name last when it is new; in
    both cases no name is a key twice afterwards if none was before. *)
Theorem add_record_names (book : AddressBook.t) (record : Record.t) :
  dict_keys (AddressBook.records (AddressBook.add_record book record))
  = match AddressBook.find book (value (Record.name record)) with
    | Some _ => dict_keys (AddressBook.records book)
    | None => dict_keys (AddressBook.records book) ++ [value (Record.name record)]
    end
  /\ (NoDup (dict_keys (AddressBook.records book)) ->
      NoDup (dict_keys (AddressBook.records (AddressBook.add_record book record)))).
Proof.
  split.
  - apply dict_set_keys.
  - apply dict_set_keys_nodup.
Qed.

Lemma add_record_names_witness :
  NoDup (dict_keys (AddressBook.records (AddressBook.add_record book_anna anna))).
Proof.
  apply (proj2 (add_record_names book_anna anna)).
  repeat constructor. simpl. tauto.
Defined.

(** ** Records as dicts *)

Lemma add_phones_ok (ps : list str) (record : Record.t) :
  (forall p, In p ps -> Phone.__init__ p = Ok (mkField p)) ->
  Record.add_phones record ps
  = Ok (Record.mk (Record.name record)
          (Record.phones record ++ List.map mkField ps)
          (Record.birthday record)).
Proof.
  revert record. induction ps as [|p ps IH]; intros record V.
  - cbn [Record.add_phones List.map]. rewrite app_nil_r. now destruct record.
  - cbn [Record.add_phones]. unfold Record.add_phone.
    rewrite (V p (or_introl eq_refl)).
    rewrite IH by (intros q I; apply V; now right).
    cbn [Record.name Record.phones Record.birthday List.map].
    now rewrite <- app_assoc.
Qed.

Lemma add_phones_inv (ps : list str) (record record' : Record.t) :
  Record.add_phones record ps = Ok record' ->
  forall p, In p ps -> Phone.__init__ p = Ok (mkField p).
Proof.
  revert record. induction ps as [|p ps IH]; intros record H q I; [destruct I|].
  cbn [Record.add_phones] in H. unfold Record.add_phone in H.
  destruct (Phone.__init__ p) as [f|e] eqn:P; [|discriminate].
  destruct I as [<-|I].
  - now destruct (Phone_ok_truthy _ P) as [_ ->].
  - exact (IH _ H q I).
Qed.

Lemma Birthday_refuses_empty (b : Field) : Birthday.__init__ [] <> Ok b.
Proof. discriminate. Qed.

(** X11: a record whose phones and birthday are texts the constructors
    accept comes back unchanged from [from_dict] applied to its
    [to_dict]. *)
Theorem from_dict_to_dict (r : Record.t) :
  (forall p, In p (Record.phones r) -> Phone.__init__ (value p) = Ok p) ->
  (forall b, Record.birthday r = Some b -> Birthday.__init__ (value b) = Ok b) ->
  Record.from_dict (Record.to_dict r) = Ok r.
Proof.
  destruct r as [[n] ps b]. cbn [Record.phones Record.birthday]. intros VP VB.
  unfold Record.from_dict, Record.to_dict, Record.__init__.
  cbn [Record.data_name Record.data_phones Record.data_birthday
       Record.name Record.phones Record.birthday value].
  rewrite add_phones_ok.
  - cbn [Record.name Record.phones Record.birthday app].
    assert (M : List.map mkField (List.map value ps) = ps).
    { clear. induction ps as [|[v] ps IH]; simpl; congruence. }
    rewrite M. destruct b as [[v]|]; [|reflexivity].
    specialize (VB (mkField v) eq_refl). cbn [value] in *.
    destruct v as [|c v]; [now apply Birthday_refuses_empty in VB|].
    unfold Record.add_birthday. now rewrite VB.
  - intros p I. apply in_map_iff in I as [[v] [<- I]]. exact (VP _ I).
Qed.

Lemma from_dict_to_dict_witness :
  Record.from_dict (Record.to_dict anna_born_1990) = Ok anna_born_1990.
Proof.
  apply from_dict_to_dict.
  - intros p [<-|[]]. reflexivity.
  - intros b H. injection H as <-. reflexivity.
Defined.

(** X12: [from_dict] succeeds exactly when every phone of the dict is a
    text [Phone] accepts and the birthday, if there is one and it is not
    the empty text, is a text [Birthday] accepts; the record then has the
    name, the phones in their order and the birthday of the dict, an empty
    birthday text counting as none. *)
Theorem from_dict_spec (d : Record.data) (r : Record.t) :
  Record.from_dict d = Ok r <->
  r = built d
  /\ (forall p, In p (Record.data_phones d) -> Phone.__init__ p = Ok (mkField p))
  /\ (forall c b, Record.data_birthday d = Some (c :: b) ->
        Birthday.__init__ (c :: b) = Ok (mkField (c :: b))).
Proof.
  unfold Record.from_dict, Record.__init__, built. split.
  - destruct (Record.add_phones _ (Record.data_phones d)) as [r'|e] eqn:A;
      [|discriminate].
    pose proof (add_phones_inv _ _ A) as VP.
    rewrite (add_phones_ok _ _ VP) in A. injection A as <-.
    cbn [Record.name Record.phones Record.birthday app].
    destruct (Record.data_birthday d) as [[|c b]|].
    + intros H. injection H as <-. repeat split; auto. discriminate.
    + unfold Record.add_birthday.
      destruct (Birthday.__init__ (c :: b)) as [f|e] eqn:B; [|discriminate].
      pose proof (Birthday_ok_value _ B) as ->.
      intros H. injection H as <-. repeat split; auto.
      intros c' b' E. injection E as <- <-. exact B.
    + intros H. injection H as <-. repeat split; auto. discriminate.
  - intros (-> & VP & VB). rewrite (add_phones_ok _ _ VP).
    cbn [Record.name Record.phones Record.birthday app].
    destruct (Record.data_birthday d) as [[|c b]|]; try reflexivity.
    unfold Record.add_birthday. now rewrite (VB c b eq_refl).
Qed.

Lemma from_dict_spec_witness :
  Record.from_dict
    (Record.mkData (txt "Anna") [txt "0501234567"] (Some (txt "")))
  = Ok anna.
Proof.
  apply from_dict_spec. split; [reflexivity|]. split.
  - intros p [<-|[]]. reflexivity.
  - intros c b H. discriminate H.
Defined.

(** ** Reading a command line *)

Lemma split_lstrip (a : str) : split (lstrip a) [] = split a [].
Proof.
  induction a as [|c a IH]; [reflexivity|]. simpl.
  destruct (is_space_char c) eqn:E; [exact IH|].
  simpl. now rewrite E.
Qed.

Lemma split_trailing_space (a word : str) (c : N) :
  is_space_char c = true -> split (a ++ [c]) word = split a word.
Proof.
  intros E. revert word. induction a as [|x a IH]; intros word; simpl.
  - rewrite E. now destruct word.
  - destruct (is_space_char x); [destruct word|]; now rewrite IH.
Qed.

Lemma split_rstrip (a word : str) :
  split (rev (lstrip (rev a))) word = split a word.
Proof.
  induction a as [|c a IH] using rev_ind; [reflexivity|].
  rewrite rev_app_distr. simpl.
  destruct (is_space_char c) eqn:E.
  - now rewrite IH, split_trailing_space.
  - simpl. now rewrite rev_involutive.
Qed.

Lemma parse_input_split (a : str) : parse_input a = split a [].
Proof. unfold parse_input, strip. now rewrite split_rstrip, split_lstrip. Qed.

Lemma split_clean (a word : str) :
  forallb (fun c => negb (is_space_char c)) word = true ->
  forall t, In t (split a word) ->
    t <> [] /\ forallb (fun c => negb (is_space_char c)) t = true.
Proof.
  assert (R : forall w, w <> [] ->
                forallb (fun c => negb (is_space_char c)) w = true ->
                rev w <> []
                /\ forallb (fun c => negb (is_space_char c)) (rev w) = true).
  { intros w N F. split.
    - intros H. apply N. now rewrite <- (rev_involutive w), H.
    - apply forallb_forall. intros x I. apply in_rev in I.
      exact (proj1 (forallb_forall _ _) F x I). }
  revert word. induction a as [|c a IH]; intros word W t; simpl.
  - destruct word as [|x word]; [intros []|]. intros [<-|[]].
    apply R; [discriminate | exact W].
  - destruct (is_space_char c) eqn:E.
    + destruct word as [|x word]; [now apply IH|].
      intros [<-|I]; [apply R; [discriminate | exact W] | now apply (IH [])].
    + apply IH. simpl. now rewrite E.
Qed.

Lemma split_nil (a word : str) :
  split a word = [] <-> word = [] /\ forallb is_space_char a = true.
Proof.
  revert word. induction a as [|c a IH]; intros word; simpl.
  - destruct word; split; try tauto; try discriminate.
    intros [H _]. discriminate H.
  - destruct (is_space_char c) eqn:E; simpl.
    + destruct word as [|x word].
      * rewrite IH. tauto.
      * split; [discriminate|]. intros [H _]. discriminate H.
    + rewrite IH. split; [intros [H _]; discriminate H|].
      intros [_ H]. discriminate H.
Qed.

(** X14: the words [parse_input] returns are never empty and hold no white
    space; it returns no word at all exactly when the line is empty or all
    white space. *)
Theorem parse_input_words (user_input : str) :
  (forall word, In word (parse_input user_input) ->
     truthy word = true
     /\ forall c, In c word -> is_space_char c = false)
  /\ (parse_input user_input = [] <-> forallb is_space_char user_input = true).
Proof.
  rewrite parse_input_split. split.
  - intros word I. destruct (split_clean user_input [] eq_refl word I) as [N F].
    split.
    + destruct word; [contradiction | reflexivity].
    + intros c Ic. pose proof (proj1 (forallb_forall _ _) F c Ic) as H.
      cbv beta in H. now destruct (is_space_char c).
  - rewrite split_nil. tauto.
Qed.

Lemma split_word (t rest word : str) :
  forallb (fun c => negb (is_space_char c)) t = true ->
  split (t ++ rest) word = split rest (rev t ++ word).
Proof.
  revert word. induction t as [|c t IH]; intros word F; [reflexivity|].
  simpl in F. apply andb_true_iff in F as [Fc Ft].
  simpl. destruct (is_space_char c); [discriminate|].
  rewrite IH by exact Ft. now rewrite <- app_assoc.
Qed.

(** X15: words that are not empty and hold no white space, put on one line
    with single spaces between them, are read back by [parse_input] as
    they were. *)
Theorem parse_input_join (words : list str) :
  (forall word, In word words ->
     word <> [] /\ forall c, In c word -> is_space_char c = false) ->
  parse_input (join (txt " ") words) = words.
Proof.
  rewrite parse_input_split. intros C.
  assert (F : forall word, In word words ->
                forallb (fun c => negb (is_space_char c)) word = true).
  { intros word I. apply forallb_forall. intros c Ic.
    now rewrite (proj2 (C word I) c Ic). }
  induction words as [|t words IH]; [reflexivity|].
  assert (Tn : rev t <> []).
  { intros H. apply (proj1 (C t (or_introl eq_refl))).
    now rewrite <- (rev_involutive t), H. }
  destruct words as [|t' words].
  - cbn [join]. rewrite <- (app_nil_r t), split_word by (apply F; now left).
    rewrite !app_nil_r. cbn [split].
    destruct (rev t) eqn:E; [contradiction|]. rewrite <- E.
    now rewrite rev_involutive.
  - change (join (txt " ") (t :: t' :: words))
      with (t ++ txt " " ++ join (txt " ") (t' :: words)).
    rewrite split_word by (apply F; now left). rewrite app_nil_r.
    change (txt " " ++ join (txt " ") (t' :: words))
      with (32%N :: join (txt " ") (t' :: words)).
    cbn [split]. change (is_space_char 32) with true. cbv iota.
    destruct (rev t) eqn:E; [contradiction|]. rewrite <- E.
    rewrite rev_involutive. f_equal.
    apply IH; intros word I; [apply C | apply F]; now right.
Qed.

Lemma parse_input_join_witness :
  parse_input (join (txt " ") [txt "add"; txt "Anna"; txt "0501234567"])
  = [txt "add"; txt "Anna"; txt "0501234567"].
Proof.
  apply parse_input_join. intros word I. split.
  - destruct I as [<-|[<-|[<-|[]]]]; discriminate.
  - intros c Ic.
    assert (A : forallb (fun c => negb (is_space_char c)) word = true).
    { destruct I as [<-|[<-|[<-|[]]]]; reflexivity. }
    pose proof (proj1 (forallb_forall _ _) A c Ic) as H.
    cbv beta in H. now destruct (is_space_char c).
Defined.

(** ** What the unpickler builds *)

Lemma pop_mark_wf (stack : list item) (above vs : list pyobj) (below : list item) :
  pop_mark stack above = Some (vs, below) ->
  stack_wf stack -> Forall wf above ->
  Forall wf vs /\ stack_wf below.
Proof.
  revert above. induction stack as [|x stack IH]; intros above; simpl;
    [discriminate|].
  destruct x as [o| | |]; try discriminate.
  - intros H S A. apply (IH (o :: above) H).
    + intros o' I. apply S. now right.
    + constructor; [apply S; now left | exact A].
  - intros H S A. injection H as <- <-. split; [exact A|].
    intros o I. apply S. now right.
Qed.

Lemma dict_set_wf (k : str) (v : pyobj) (d : list (str * pyobj)) :
  wf (PDict d) -> wf v -> wf (PDict (dict_set k v d)).
Proof.
  intros W Wv. inversion W as [| | | ? ND F |]; subst. apply wf_dict.
  - apply (@dict_set_keys_nodup pyobj k v d). exact ND.
  - apply Forall_forall. intros [k' v'] I. cbn [snd].
    destruct (dict_set_in _ _ _ _ _ I) as [[_ ->]|I']; [exact Wv|].
    exact (proj1 (Forall_forall _ _) F (k', v') I').
Qed.

Lemma set_items_wf (kvs : list pyobj) (d d' : list (str * pyobj)) :
  set_items d kvs = Some d' -> wf (PDict d) -> Forall wf kvs -> wf (PDict d').
Proof.
  assert (G : forall n kvs d, (List.length kvs <= n)%nat ->
                set_items d kvs = Some d' -> wf (PDict d) -> Forall wf kvs ->
                wf (PDict d')).
  { clear. induction n as [|n IH]; intros kvs d L.
    - destruct kvs; [|simpl in L; lia]. simpl. intros H. now injection H as <-.
    - destruct kvs as [|k [|v kvs]]; simpl.
      + intros H. now injection H as <-.
      + destruct k; discriminate.
      + destruct k as [|key| | |]; try discriminate.
        intros H W F. apply (IH kvs (dict_set key v d)).
        * simpl in L. lia.
        * exact H.
        * apply dict_set_wf; [exact W|]. exact (Forall_inv (Forall_inv_tail F)).
        * exact (Forall_inv_tail (Forall_inv_tail F)). }
  exact (G (List.length kvs) kvs d (le_n _)).
Qed.

Lemma dict_update_wf (state d : list (str * pyobj)) :
  wf (PDict d) -> Forall (fun kv => wf (snd kv)) state ->
  wf (PDict (dict_update d state)).
Proof.
  revert d. induction state as [|[k v] state IH]; intros d W F; [exact W|].
  cbn [dict_update fold_left fst snd].
  apply IH; [|exact (Forall_inv_tail F)].
  apply dict_set_wf; [exact W | exact (Forall_inv F)].
Qed.

Lemma wf_inst_dict (m c : str) (state : list (str * pyobj)) :
  wf (PInst m c state) <-> wf (PDict state).
Proof.
  split; intros W; inversion W; subst; constructor; assumption.
Qed.

Lemma step_wf (op : opcode) (stack stack' : list item) :
  step op stack = Some stack' -> stack_wf stack -> stack_wf stack'.
Proof.
  assert (push : forall o (s : list item), wf o -> stack_wf s ->
                   stack_wf (IObj o :: s)).
  { intros o s W S o' [H|I]; [now injection H as <- | now apply S]. }
  assert (skip : forall x (s : list item), stack_wf (x :: s) -> stack_wf s).
  { intros x s S o I. apply S. now right. }
  assert (top : forall o (s : list item), stack_wf (IObj o :: s) -> wf o).
  { intros o s S. apply S. now left. }
  assert (mark : forall x (s : list item),
             (forall o, x <> IObj o) -> stack_wf s -> stack_wf (x :: s)).
  { intros x s N S o [H|I]; [now apply N in H | now apply S]. }
  destruct op; simpl; intros H S.
  - injection H as <-. apply push; [constructor | exact S].
  - injection H as <-. apply push; [constructor | exact S].
  - injection H as <-. apply push; [constructor; constructor | exact S].
  - destruct stack as [|[v| | |] [|[[| |l| |]| | |] below]]; try discriminate.
    injection H as <-. apply push; [|exact (skip _ _ (skip _ _ S))].
    pose proof (top _ _ (skip _ _ S)) as Wl. inversion Wl; subst.
    constructor. apply Forall_app. split; [assumption|].
    constructor; [exact (top _ _ S) | constructor].
  - destruct (pop_mark stack []) as [[vs [|[[| |l| |]| | |] below]]|] eqn:P;
      try discriminate.
    injection H as <-.
    destruct (@pop_mark_wf _ _ _ _ P S (Forall_nil _)) as [Wv Sb].
    apply push; [|exact (skip _ _ Sb)].
    pose proof (top _ _ Sb) as Wl. inversion Wl; subst.
    constructor. apply Forall_app. now split.
  - injection H as <-. apply push; [|exact S].
    apply wf_dict; constructor.
  - destruct stack as [|[v| | |] [|[[|k| | |]| | |] [|[[| | |d|]| | |] below]]];
      try discriminate.
    injection H as <-.
    apply push; [|exact (skip _ _ (skip _ _ (skip _ _ S)))].
    apply dict_set_wf; [exact (top _ _ (skip _ _ (skip _ _ S))) | exact (top _ _ S)].
  - destruct (pop_mark stack []) as [[kvs [|[[| | |d|]| | |] below]]|] eqn:P;
      try discriminate.
    destruct (set_items d kvs) as [d'|] eqn:E; [|discriminate].
    injection H as <-.
    destruct (@pop_mark_wf _ _ _ _ P S (Forall_nil _)) as [Wv Sb].
    apply push; [|exact (skip _ _ Sb)].
    exact (@set_items_wf _ _ _ E (top _ _ Sb) Wv).
  - injection H as <-. apply mark; [discriminate | exact S].
  - injection H as <-. apply mark; [discriminate | exact S].
  - destruct stack as [|[[|c| | |]| | |] [|[[|m| | |]| | |] below]];
      try discriminate.
    injection H as <-. apply mark; [discriminate|].
    exact (skip _ _ (skip _ _ S)).
  - destruct stack as [|[| | |] [|[| |m c|] below]]; try discriminate.
    injection H as <-. apply push; [|exact (skip _ _ (skip _ _ S))].
    apply wf_inst; constructor.
  - destruct stack as [|[[| | |state|]| | |] [|[[| | | |m c d]| | |] below]];
      try discriminate.
    injection H as <-. apply push; [|exact (skip _ _ (skip _ _ S))].
    apply wf_inst_dict. apply dict_update_wf.
    + apply (wf_inst_dict m c). exact (top _ _ (skip _ _ S)).
    + pose proof (top _ _ S) as Ws. now inversion Ws.
  - discriminate.
Qed.

Lemma run_wf (ops : list opcode) (stack : list item) (o : pyobj) :
  run ops stack = Ok o -> stack_wf stack -> wf o.
Proof.
  revert stack. induction ops as [|op ops IH]; intros stack; [discriminate|].
  intros H S.
  assert (G : forall stack', step op stack = Some stack' ->
                run ops stack' = Ok o -> wf o).
  { intros stack' E R. exact (IH _ R (@step_wf _ _ _ E S)). }
  destruct op; cbn [run] in H;
    try (destruct (step _ stack) as [stack'|] eqn:E; [|discriminate];
         exact (G _ eq_refl H)).
  destruct stack as [|[o'| | |] below]; try discriminate.
  injection H as <-. apply S. now left.
Qed.

Lemma map_option_keys A B (f : B -> option A) (items : list (str * B))
    (rs : list (str * A)) :
  map_option (fun kv => option_map (pair (fst kv)) (f (snd kv))) items = Some rs ->
  List.map fst rs = List.map fst items.
Proof.
  revert rs. induction items as [|[k v] items IH]; intros rs; simpl.
  - intros H. now injection H as <-.
  - destruct (f v) as [r|]; [|discriminate]. cbn [option_map].
    destruct (map_option _ items) as [rs'|]; [|discriminate].
    intros H. injection H as <-. simpl. now rewrite (IH rs' eq_refl).
Qed.

Lemma of_obj_keys_nodup (o : pyobj) (book : AddressBook.t) :
  AddressBook.of_obj o = Some book -> wf o ->
  NoDup (dict_keys (AddressBook.records book)).
Proof.
  unfold AddressBook.of_obj. destruct o as [| | | |m c state]; try discriminate.
  destruct (str_eqb m __main__ && str_eqb c (txt "AddressBook"));
    [|discriminate].
  destruct (dict_get (txt "records") state) as [[| | |items|]|] eqn:G;
    try discriminate.
  destruct (map_option _ items) as [rs|] eqn:M; [|discriminate].
  intros H W. injection H as <-. cbn [AddressBook.records].
  unfold dict_keys. rewrite (@map_option_keys _ _ _ _ _ M).
  inversion W as [| | | |? ? ? _ F]; subst.
  pose proof (proj1 (Forall_forall _ _) F _ (@dict_get_in _ _ _ _ G)) as Wd.
  cbn [snd] in Wd. now inversion Wd.
Qed.

(** Whatever the file holds, a book that loads has no name twice. *)
Lemma loaded_book_keys_nodup (filename : str) (fs : filesystem)
    (book : AddressBook.t) :
  AddressBook.load_from_file filename fs = Ok book ->
  NoDup (dict_keys (AddressBook.records book)).
Proof.
  unfold AddressBook.load_from_file.
  destruct (open_rb filename fs) as [content|e].
  - destruct (load content) as [o|e] eqn:L; [|discriminate].
    destruct (AddressBook.of_obj o) as [b|] eqn:O; [|discriminate].
    intros H. injection H as <-. apply (@of_obj_keys_nodup _ _ O).
    apply (@run_wf _ _ _ L). intros o' [].
  - destruct e; try discriminate. intros H. injection H as <-. constructor.
Qed.

(** ** The command loop *)

Lemma mutated_keys_nodup (book : AddressBook.t) (k : str) (r : Record.t) :
  keys_nodup book -> keys_nodup (AddressBook.mutated book k r).
Proof. apply dict_set_keys_nodup. Qed.

Lemma commands_keys_nodup (args : list str) (book : AddressBook.t) :
  keys_nodup book ->
  keys_nodup (snd (add_contact args book))
  /\ keys_nodup (snd (change_contact args book))
  /\ keys_nodup (snd (add_birthday args book)).
Proof.
  intros ND. split; [|split].
  - unfold add_contact, input_error, add_contact_body.
    destruct args as [|name [|phone rest]]; try exact ND.
    destruct (AddressBook.find book name) as [record|].
    + destruct (truthy phone); [|exact ND].
      destruct (Record.add_phone record phone); [|exact ND].
      now apply mutated_keys_nodup.
    + cbn [Record.__init__].
      assert (ND1 : keys_nodup (AddressBook.add_record book
                                  (Record.mk (mkField name) [] None)))
        by now apply dict_set_keys_nodup.
      destruct (truthy phone); [|exact ND1].
      destruct (Record.add_phone _ phone); [|exact ND1].
      now apply mutated_keys_nodup.
  - unfold change_contact, input_error, change_contact_body.
    destruct args as [|name [|old_phone [|new_phone rest]]]; try exact ND.
    destruct (AddressBook.find book name) as [record|]; [|exact ND].
    destruct (change_first old_phone new_phone (Record.phones record));
      [|exact ND].
    now apply mutated_keys_nodup.
  - unfold add_birthday, input_error, add_birthday_body.
    destruct args as [|name [|date rest]]; try exact ND.
    destruct (AddressBook.find book name) as [record|]; [|exact ND].
    destruct (Record.add_birthday record date); [|exact ND].
    now apply mutated_keys_nodup.
Qed.

Lemma dispatch_keys_nodup (repr : str -> str) (now : datetime)
    (command : str) (args : list str) (book : AddressBook.t) :
  keys_nodup book -> keys_nodup (snd (dispatch repr now command args book)).
Proof.
  intros ND. unfold dispatch.
  destruct (commands_keys_nodup args ND) as (A & C & B).
  repeat match goal with
         | |- context [if ?b then _ else _] => destruct b
         end; try exact ND.
  - destruct (add_contact args book); exact A.
  - destruct (change_contact args book); exact C.
  - unfold find_contact, input_error, find_contact_body.
    destruct args as [|name args]; [exact ND|].
    destruct (AddressBook.find book name); exact ND.
  - destruct (add_birthday args book); exact B.
  - unfold show_birthday, input_error, show_birthday_body.
    destruct args as [|name args]; [exact ND|].
    destruct (AddressBook.find book name) as [r|]; [|exact ND].
    destruct (Record.birthday r); exact ND.
  - unfold birthdays, input_error, birthdays_body.
    destruct (datetime_add now (mkTimedelta 7 0 0)) as [w|]; [|exact ND].
    destruct (upcoming repr now w (AddressBook.get_all_records book)); exact ND.
Qed.

Lemma loop_keys_nodup (repr : str -> str) (inputs : list (str * datetime))
    (book : AddressBook.t) (fs : filesystem) :
  keys_nodup book -> keys_nodup (last_book (loop repr inputs book fs)).
Proof.
  revert book. induction inputs as [|[line now] inputs IH]; intros book ND;
    [exact ND|].
  cbn [loop]. destruct (parse_input line) as [|command args]; [exact ND|].
  destruct (among command _); [exact ND|].
  pose proof (dispatch_keys_nodup repr now command args ND) as D.
  destruct (dispatch repr now command args book) as [lines book'].
  cbn [wrote last_book]. now apply IH.
Qed.

(** Where the loop leaves the files. *)
Lemma file_written_only_at_exit_aux (repr : str -> str)
    (inputs : list (str * datetime)) (book : AddressBook.t) (fs : filesystem) :
  last_fs (loop repr inputs book fs)
  = match state (loop repr inputs book fs) with
    | Ended =>
        AddressBook.save_to_file (last_book (loop repr inputs book fs))
          address_book_pkl fs
    | _ => fs
    end.
Proof.
  revert book. induction inputs as [|[line now] inputs IH]; intros book;
    [reflexivity|].
  cbn [loop]. destruct (parse_input line) as [|command args]; [reflexivity|].
  destruct (among command _); [reflexivity|].
  destruct (dispatch repr now command args book) as [lines book'].
  cbn [wrote last_fs last_book state]. apply IH.
Qed.

(** X18: [main] writes the file of the book only when the session ends by
    close or exit, and then it writes the book as it is at that moment;
    while the session waits for input, or when it ends by an exception, the
    files are as they were when it started. *)
Theorem file_written_only_at_exit (repr : str -> str)
    (inputs : list (str * datetime)) (fs : filesystem) (o : outcome) :
  main repr inputs fs = Ok o ->
  last_fs o
  = match state o with
    | Ended => AddressBook.save_to_file (last_book o) address_book_pkl fs
    | _ => fs
    end.
Proof.
  unfold main.
  destruct (AddressBook.load_from_file address_book_pkl fs) as [book|e];
    [|discriminate].
  intros H. injection H as <-. cbn [wrote last_fs last_book state].
  apply file_written_only_at_exit_aux.
Qed.

Lemma file_written_only_at_exit_witness :
  last_fs (wrote [Print (txt "Welcome to the assistant bot!")]
             (loop (fun a => a) [(txt "add Anna 0501234567", today_2026_11_03)]
                AddressBook.__init__ []))
  = [].
Proof.
  apply (@file_written_only_at_exit (fun a => a)
           [(txt "add Anna 0501234567", today_2026_11_03)] []).
  reflexivity.
Defined.

(** X16: when a session ends by close or exit, loading the file gives the
    book the session ended with, whatever file the session started from
    and whatever was typed; so the next session starts from that book. *)
Theorem session_persists (repr : str -> str) (inputs : list (str * datetime))
    (fs : filesystem) (o : outcome) :
  main repr inputs fs = Ok o -> state o = Ended ->
  AddressBook.load_from_file address_book_pkl (last_fs o) = Ok (last_book o)
  /\ forall inputs',
       main repr inputs' (last_fs o)
       = Ok (wrote [Print (txt "Welcome to the assistant bot!")]
               (loop repr inputs' (last_book o) (last_fs o))).
Proof.
  unfold main.
  destruct (AddressBook.load_from_file address_book_pkl fs) as [book|e] eqn:L;
    [|discriminate].
  intros H E. injection H as <-. cbn [wrote last_fs last_book state] in *.
  assert (G : AddressBook.load_from_file address_book_pkl
                (last_fs (loop repr inputs book fs))
              = Ok (last_book (loop repr inputs book fs))).
  { pose proof (file_written_only_at_exit_aux repr inputs book fs) as W.
    rewrite E in W. rewrite W.
    unfold AddressBook.load_from_file, AddressBook.save_to_file.
    rewrite open_after_write, load_dump.
    - now rewrite AddressBook_of_to_obj.
    - apply AddressBook_to_obj_wf. apply loop_keys_nodup.
      exact (loaded_book_keys_nodup _ _ L). }
  split; [exact G|]. intros inputs'. now rewrite G.
Qed.

Lemma session_persists_witness :
  AddressBook.load_from_file address_book_pkl
    [(address_book_pkl, dump (AddressBook.to_obj book_anna))]
  = Ok book_anna.
Proof.
  apply (@session_persists (fun a => a)
           [(txt "add Anna 0501234567", today_2026_11_03);
            (txt "exit", today_2026_11_03)] []
           (mkOutcome
              [Print (txt "Welcome to the assistant bot!");
               Prompt (txt "Enter a command: "); Print (txt "Contact added.");
               Prompt (txt "Enter a command: "); Print (txt "Good bye!")]
              book_anna
              [(address_book_pkl, dump (AddressBook.to_obj book_anna))] Ended));
    reflexivity.
Defined.

(** X17: a line that is empty or all white space ends the session with the
    ValueError of the unpacking, which nothing catches; the book is not
    saved and the lines after it are not read. *)
Theorem blank_line_ends_session (repr : str -> str) (line : str)
    (now : datetime) (more : list (str * datetime)) (book : AddressBook.t)
    (fs : filesystem) :
  forallb is_space_char line = true ->
  loop repr ((line, now) :: more) book fs
  = mkOutcome [Prompt (txt "Enter a command: ")] book fs
      (Failed (ValueError
                 (txt "not enough values to unpack (expected at least 1, got 0)"))).
Proof.
  intros B. cbn [loop]. rewrite parse_input_split.
  rewrite (proj2 (split_nil line []) (conj eq_refl B)). reflexivity.
Qed.

Lemma blank_line_ends_session_witness :
  state (loop (fun a => a) [(txt "  ", today_2026_11_03);
                             (txt "exit", today_2026_11_03)] book_anna [])
  = Failed (ValueError
              (txt "not enough values to unpack (expected at least 1, got 0)")).
Proof.
  rewrite blank_line_ends_session; reflexivity.
Defined.

Lemma wrote_nil (o : outcome) : wrote [] o = o.
Proof. now destruct o. Qed.

Lemma wrote_wrote (a b : list event) (o : outcome) :
  wrote a (wrote b o) = wrote (a ++ b) o.
Proof. unfold wrote. cbn. now rewrite app_assoc. Qed.

Lemma loop_writes (repr : str -> str) (inputs : list (str * datetime))
    (book : AddressBook.t) (fs : filesystem) :
  written (loop repr inputs book fs) <> [].
Proof. destruct inputs as [|[line now] inputs]; discriminate. Qed.

(** X19: sessions compose.  If the loop is waiting for input after some
    lines, then on these lines followed by more it does what it did on the
    first lines, the last prompt apart, and then what it does on the
    further lines from the book it had reached; if it has ended, by close
    or exit or by an exception, further lines change nothing. *)
Theorem loop_app (repr : str -> str) (a b : list (str * datetime))
    (book : AddressBook.t) (fs : filesystem) :
  loop repr (a ++ b) book fs
  = match state (loop repr a book fs) with
    | Waiting =>
        wrote (removelast (written (loop repr a book fs)))
          (loop repr b (last_book (loop repr a book fs)) fs)
    | _ => loop repr a book fs
    end.
Proof.
  revert book. induction a as [|[line now] a IH]; intros book.
  - cbn [app loop state written removelast last_book]. now rewrite wrote_nil.
  - cbn [app loop]. destruct (parse_input line) as [|command args];
      [reflexivity|].
    destruct (among command _); [reflexivity|].
    destruct (dispatch repr now command args book) as [lines book'].
    rewrite IH. rewrite !wrote_wrote.
    cbn [wrote state written last_book].
    destruct (state (loop repr a book' fs)); try reflexivity.
    rewrite wrote_wrote. f_equal.
    rewrite removelast_app by apply loop_writes. reflexivity.
Qed.

(** X20: whatever the file holds when the session starts and whatever is
    typed, the book of the session never has a name twice. *)
Theorem session_names_unique (repr : str -> str)
    (inputs : list (str * datetime)) (fs : filesystem) (o : outcome) :
  main repr inputs fs = Ok o -> keys_nodup (last_book o).
Proof.
  unfold main.
  destruct (AddressBook.load_from_file address_book_pkl fs) as [book|e] eqn:L;
    [|discriminate].
  intros H. injection H as <-. cbn [wrote last_book].
  apply loop_keys_nodup. exact (loaded_book_keys_nodup _ _ L).
Qed.

Lemma session_names_unique_witness :
  keys_nodup
    (last_book
       (wrote [Print (txt "Welcome to the assistant bot!")]
          (loop (fun a => a)
             [(txt "add Anna 0501234567", today_2026_11_03);
              (txt "add Anna 0509999999", today_2026_11_03)]
             AddressBook.__init__ []))).
Proof.
  apply (@session_names_unique (fun a => a)
           [(txt "add Anna 0501234567", today_2026_11_03);
            (txt "add Anna 0509999999", today_2026_11_03)] []).
  reflexivity.
Defined.

(** ** Commands one after the other *)

(** X21: after [add_contact] with a phone that [Phone] accepts, the book
    holds the name, be it new or not, and the phone is the last of the
    record's phones. *)
Theorem add_contact_then_find (book : AddressBook.t) (name phone : str)
    (rest : list str) (p : Field) :
  Phone.__init__ phone = Ok p ->
  exists record before,
    AddressBook.find (snd (add_contact (name :: phone :: rest) book)) name
    = Some record
    /\ Record.phones record = before ++ [mkField phone]
    /\ find_contact [name] (snd (add_contact (name :: phone :: rest) book))
       = (record_line record, snd (add_contact (name :: phone :: rest) book)).
Proof.
  intros P. destruct (Phone_ok_truthy _ P) as [T ->].
  unfold add_contact, input_error, add_contact_body, Record.add_phone,
    Record.__init__.
  destruct (AddressBook.find book name) as [old|] eqn:F; rewrite T, P;
    cbn [snd]; eexists; eexists;
    unfold find_contact, input_error, find_contact_body;
    rewrite find_mutated_same; (split; [reflexivity|]);
    (split; [cbn [Record.phones]; reflexivity | reflexivity]).
Qed.

Lemma add_contact_then_find_witness :
  exists record before,
    AddressBook.find
      (snd (add_contact [txt "Anna"; txt "0509999999"] book_anna)) (txt "Anna")
    = Some record
    /\ Record.phones record = before ++ [mkField (txt "0509999999")].
Proof.
  destruct (@add_contact_then_find book_anna (txt "Anna") (txt "0509999999") []
              (mkField (txt "0509999999")) eq_refl)
    as (record & before & H1 & H2 & _).
  exists record, before. split; assumption.
Defined.

(** X22: after [add_birthday] for a name the book holds, with a date
    [Birthday] accepts, [show_birthday] for that name answers with that
    date. *)
Theorem add_birthday_then_show (book : AddressBook.t) (name date : str)
    (rest rest' : list str) (record : Record.t) (b : Field) :
  AddressBook.find book name = Some record ->
  Birthday.__init__ date = Ok b ->
  fst (show_birthday (name :: rest')
         (snd (add_birthday (name :: date :: rest) book)))
  = name ++ txt "'s birthday is on " ++ date ++ txt ".".
Proof.
  intros F B. pose proof (Birthday_ok_value _ B) as ->.
  unfold add_birthday, input_error, add_birthday_body, Record.add_birthday.
  rewrite F, B. cbn [snd].
  unfold show_birthday, input_error, show_birthday_body.
  rewrite find_mutated_same. reflexivity.
Qed.

Lemma add_birthday_then_show_witness :
  fst (show_birthday [txt "Anna"]
         (snd (add_birthday [txt "Anna"; txt "29.02.2024"] book_anna)))
  = txt "Anna's birthday is on 29.02.2024.".
Proof.
  apply (@add_birthday_then_show book_anna (txt "Anna") (txt "29.02.2024") [] []
           anna (mkField (txt "29.02.2024"))); reflexivity.
Defined.

(** X23: [add_contact] with the empty text as the phone adds no phone: for
    a new name it answers "Contact added." and the book gets a record
    without phones; for a name the book holds it answers "Contact updated."
    and the book stays as it was. *)
Theorem add_contact_empty_phone (book : AddressBook.t) (name : str)
    (rest : list str) :
  add_contact (name :: [] :: rest) book
  = match AddressBook.find book name with
    | Some _ => (txt "Contact updated.", book)
    | None =>
        (txt "Contact added.",
         AddressBook.mk
           (AddressBook.records book
            ++ [(name, Record.mk (mkField name) [] None)]))
    end.
Proof.
  unfold add_contact, input_error, add_contact_body, Record.__init__.
  destruct (AddressBook.find book name) eqn:F; [reflexivity|].
  cbn [truthy List.length Nat.eqb negb].
  unfold AddressBook.add_record. cbn [Record.name value].
  rewrite dict_set_fresh by (apply dict_get_none_keys; exact F).
  reflexivity.
Qed.
